(** * Module resolution settings of react-scripts: [config/modules.js]

    A shallow embedding of [packages/react-scripts/config/modules.js] and the
    properties of its functions [getAdditionalModulePaths],
    [getWebpackAliases], [getJestAliases], [configPathsRaw], [readConfig] and
    [getModules].

    The configuration objects handled by the module are parsed JSON, so the
    embedding works on a type of JavaScript values with the language's own
    notions of truthiness, [typeof], property reads, object spread and
    property order.  Exceptions are explicit results, and the calls the module
    makes to its host (file existence, [require], TypeScript's config reader)
    are recorded in a trace. *)

From Stdlib Require Import String Ascii List ZArith NArith Bool Lia.
From Stdlib Require Import DecimalString.
Import ListNotations.

Set Warnings "-register-all".

Open Scope list_scope.
Open Scope string_scope.

(** ** JavaScript values *)

(** The values a parsed [tsconfig.json] / [jsconfig.json] can hold, plus
    [undefined] (what reading a missing property gives).  A number is an
    integer literal here: the module only ever tests a number for truthiness
    and for its type, and every non-zero number behaves alike in both.  An
    object is the list of its own properties in the order [Object.keys]
    enumerates them. *)
Inductive value : Type :=
| VUndefined
| VNull
| VBool (b : bool)
| VNum (n : Z)
| VStr (s : string)
| VArr (xs : list value)
| VObj (props : list (string * value)).

Definition props : Type := list (string * value).

(** The exceptions the module can raise, one constructor per [throw] site of
    the source, next to the [TypeError] of the runtime and of Node's [path]
    functions and whatever the host's loaders raise. *)
Inductive paths_site : Type :=
| OwnPaths          (* modules.js:121, [compilerOptions.paths] *)
| InheritedPaths.   (* modules.js:125, [extends -> compilerOptions.paths] *)

Inductive exn : Type :=
| TypeError
| UnsupportedBaseUrlError                   (* modules.js:52 *)
| InvalidPathsError (site : paths_site)     (* modules.js:121 and 125 *)
| NoConfigError                             (* modules.js:137 *)
| ConflictingConfigError                    (* modules.js:177 *)
| HostError (msg : string).                 (* raised by a loader of the host *)

Inductive result (A : Type) : Type :=
| Ok (a : A)
| Throw (e : exn).

Arguments Ok {A} a.
Arguments Throw {A} e.

Definition bind {A B : Type} (r : result A) (k : A -> result B) : result B :=
  match r with
  | Ok a => k a
  | Throw e => Throw e
  end.

Declare Scope js_scope.
Delimit Scope js_scope with js.
Notation "'let*' x ':=' r 'in' k" := (bind r (fun x => k))
  (at level 10, x name, r at level 100, k at level 200) : js_scope.
Open Scope js_scope.

(** [!!v] in the source is [truthy v]. *)
Definition truthy (v : value) : bool :=
  match v with
  | VUndefined | VNull => false
  | VBool b => b
  | VNum n => negb (Z.eqb n 0)
  | VStr s => negb (String.eqb s "")
  | VArr _ | VObj _ => true
  end.

Inductive js_type : Type :=
| TUndefined | TObject | TBoolean | TNumber | TString.

Definition typeof (v : value) : js_type :=
  match v with
  | VUndefined => TUndefined
  | VNull | VArr _ | VObj _ => TObject
  | VBool _ => TBoolean
  | VNum _ => TNumber
  | VStr _ => TString
  end.

Definition is_object_type (v : value) : bool :=
  match typeof v with
  | TObject => true
  | _ => false
  end.

(** [a || b] *)
Definition js_or (a b : value) : value := if truthy a then a else b.

(** ** Property keys and their order *)

Definition string_of_nat (n : nat) : string :=
  NilZero.string_of_uint (Nat.to_uint n).

(** A key is an array index when it is the canonical decimal form of an
    integer below 2^32 - 1; such keys come first, in numeric order, when the
    own properties of an object are enumerated. *)
Definition array_index (k : string) : option N :=
  match NilEmpty.uint_of_string k with
  | Some u =>
      let n := N.of_uint u in
      if String.eqb (NilZero.string_of_uint (N.to_uint n)) k
         && N.ltb n 4294967295
      then Some n else None
  | None => None
  end.

Fixpoint lookup (k : string) (o : props) : option value :=
  match o with
  | [] => None
  | (k', v) :: o' => if String.eqb k k' then Some v else lookup k o'
  end.

Definition has_key (k : string) (o : props) : bool :=
  match lookup k o with
  | Some _ => true
  | None => false
  end.

Fixpoint replace_value (k : string) (v : value) (o : props) : props :=
  match o with
  | [] => []
  | (k', v') :: o' =>
      if String.eqb k k' then (k', v) :: o'
      else (k', v') :: replace_value k v o'
  end.

(** Where a new array-index key [n] goes: before the first key that is not
    an array index or is a larger one. *)
Fixpoint insert_index (n : N) (k : string) (v : value) (o : props) : props :=
  match o with
  | [] => [(k, v)]
  | (k', v') :: o' =>
      match array_index k' with
      | Some m =>
          if N.ltb n m then (k, v) :: (k', v') :: o'
          else (k', v') :: insert_index n k v o'
      | None => (k, v) :: (k', v') :: o'
      end
  end.

(** CreateDataProperty on an ordinary object: what an object literal and an
    object spread do for each property.  An existing key keeps its place. *)
Definition define (o : props) (k : string) (v : value) : props :=
  if has_key k o then replace_value k v o
  else match array_index k with
       | Some n => insert_index n k v o
       | None => (o ++ [(k, v)])%list
       end.

(** [o[k] = v] on a plain object whose prototype is [Object.prototype].  The
    key [__proto__] reaches the accessor of [Object.prototype], which creates
    no own property (and ignores a value that is not an object or null; the
    module assigns strings only under computed keys). *)
Definition assign (o : props) (k : string) (v : value) : props :=
  if String.eqb k "__proto__" then o else define o k v.

Fixpoint index_keys_from (i n : nat) : list string :=
  match n with
  | O => []
  | S n' => string_of_nat i :: index_keys_from (S i) n'
  end.

(** The own enumerable string keys, as [Object.keys] and [...v] see them. *)
Definition own_keys (v : value) : list string :=
  match v with
  | VObj o => map fst o
  | VArr xs => index_keys_from 0 (List.length xs)
  | VStr s => index_keys_from 0 (String.length s)
  | _ => []
  end.

Definition nat_of_index (k : string) : option nat :=
  match array_index k with
  | Some n => Some (N.to_nat n)
  | None => None
  end.

Definition char_at (s : string) (i : nat) : value :=
  match String.get i s with
  | Some c => VStr (String c "")
  | None => VUndefined
  end.

(** Reading a data property of a value that is not [undefined] or [null].
    Only data properties are modelled: the module reads the fixed names
    [baseUrl], [paths], [extends], [compilerOptions], [appPath], [appSrc],
    none of which a prototype defines, and keys that [Object.keys] returned. *)
Definition get_own (v : value) (k : string) : value :=
  match v with
  | VObj o => match lookup k o with Some x => x | None => VUndefined end
  | VArr xs =>
      match nat_of_index k with
      | Some i => nth i xs VUndefined
      | None => if String.eqb k "length"
                then VNum (Z.of_nat (List.length xs)) else VUndefined
      end
  | VStr s =>
      match nat_of_index k with
      | Some i => char_at s i
      | None => if String.eqb k "length"
                then VNum (Z.of_nat (String.length s)) else VUndefined
      end
  | _ => VUndefined
  end.

(** [v.k]: a [TypeError] on [undefined] and [null]. *)
Definition get (v : value) (k : string) : result value :=
  match v with
  | VUndefined | VNull => Throw TypeError
  | _ => Ok (get_own v k)
  end.

(** [{ ...acc, ...v }]: CopyDataProperties reads each own key of [v] and
    defines it on the object under construction.  Spreading [undefined],
    [null], a number or a boolean adds nothing. *)
Definition spread (acc : props) (v : value) : props :=
  fold_left (fun a k => define a k (get_own v k)) (own_keys v) acc.

(** The order [Object.keys] enumerates in: array indices in ascending
    order first, then the other keys. *)
Definition after_index (n : N) (k : string) : bool :=
  match array_index k with
  | Some m => N.ltb n m
  | None => true
  end.

Definition is_name (k : string) : bool :=
  match array_index k with
  | Some _ => false
  | None => true
  end.

Fixpoint key_order (ks : list string) : bool :=
  match ks with
  | [] => true
  | k :: ks' =>
      match array_index k with
      | Some n => forallb (after_index n) ks' && key_order ks'
      | None => forallb is_name ks'
      end
  end.

(** ** Node's [path] module (POSIX flavour)

    [path] is a library of the platform; it is modelled by what it computes
    on a path seen as a sequence of segments separated by [/].  The argument
    checks are the library's: an argument that is visited and is not a string
    raises a [TypeError]. *)
Module Path.

Definition slash : ascii := "/"%char.

Definition is_slash (c : ascii) : bool := Ascii.eqb c slash.

Definition starts_with_slash (s : string) : bool :=
  match s with
  | String c _ => is_slash c
  | EmptyString => false
  end.

Fixpoint split_slash (s : string) : list string :=
  match s with
  | EmptyString => [""]
  | String c s' =>
      if is_slash c then "" :: split_slash s'
      else match split_slash s' with
           | seg :: rest => String c seg :: rest
           | [] => [String c ""]
           end
  end.

Fixpoint join_slash (segs : list string) : string :=
  match segs with
  | [] => ""
  | [seg] => seg
  | seg :: rest => seg ++ "/" ++ join_slash rest
  end.

(** [normalizeString]: empty and [.] segments vanish, [..] removes the
    segment before it, and is kept only where the path may climb above its
    start.  [stack] is the result so far, last segment first. *)
Fixpoint normalize_segments (allowAboveRoot : bool) (segs stack : list string)
  : list string :=
  match segs with
  | [] => rev stack
  | seg :: rest =>
      if String.eqb seg "" || String.eqb seg "." then
        normalize_segments allowAboveRoot rest stack
      else if String.eqb seg ".." then
        match stack with
        | top :: stack' =>
            if String.eqb top ".." then
              normalize_segments allowAboveRoot rest
                (if allowAboveRoot then seg :: stack else stack)
            else normalize_segments allowAboveRoot rest stack'
        | [] =>
            normalize_segments allowAboveRoot rest
              (if allowAboveRoot then [seg] else [])
        end
      else normalize_segments allowAboveRoot rest (seg :: stack)
  end.

(** The loop of [path.resolve]: arguments are visited from the last to the
    first, until one is absolute; [process.cwd()] comes after the first.
    Returns the concatenated path and whether it is absolute. *)
Fixpoint resolve_args (cwd : string) (rev_args : list value) (acc : string)
  : result (string * bool) :=
  match rev_args with
  | [] =>
      if String.eqb cwd "" then Ok (acc, false)
      else Ok (cwd ++ "/" ++ acc, starts_with_slash cwd)
  | VStr s :: rest =>
      if String.eqb s "" then resolve_args cwd rest acc
      else if starts_with_slash s then Ok (s ++ "/" ++ acc, true)
      else resolve_args cwd rest (s ++ "/" ++ acc)
  | _ :: _ => Throw TypeError
  end.

Definition render (absolute : bool) (segs : list string) : string :=
  if absolute then "/" ++ join_slash segs
  else match segs with
       | [] => "."
       | _ => join_slash segs
       end.

Definition resolve (cwd : string) (args : list value) : result string :=
  let* pa := resolve_args cwd (rev args) "" in
  let '(p, absolute) := pa in
  Ok (render absolute
        (normalize_segments (negb absolute) (split_slash p) [])).

Definition segments (p : string) : list string :=
  filter (fun seg => negb (String.eqb seg "")) (split_slash p).

Fixpoint drop_common (fs ts : list string) : list string * list string :=
  match fs, ts with
  | f :: fs', t :: ts' =>
      if String.eqb f t then drop_common fs' ts' else (fs, ts)
  | _, _ => (fs, ts)
  end.

Definition climb (fs ts : list string) : string :=
  let '(rf, rt) := drop_common fs ts in
  join_slash (map (fun _ => "..") rf ++ rt)%list.

(** [path.relative(from, to)]: the empty string when both name the same
    path, before or after resolution; otherwise one [..] for each segment of
    [from] below the common directory, then the rest of [to]. *)
Definition relative (cwd : string) (from to : value) : result string :=
  match from, to with
  | VStr f, VStr t =>
      if String.eqb f t then Ok ""
      else
        let* f' := resolve cwd [from] in
        let* t' := resolve cwd [to] in
        if String.eqb f' t' then Ok ""
        else Ok (climb (segments f') (segments t'))
  | _, _ => Throw TypeError
  end.

Fixpoint drop_while (p : ascii -> bool) (cs : list ascii) : list ascii :=
  match cs with
  | c :: cs' => if p c then drop_while p cs' else cs
  | [] => []
  end.

(** [path.dirname]: trailing slashes and the last segment are dropped; the
    first character is never looked at by the scan. *)
Definition dirname (p : value) : result string :=
  match p with
  | VStr EmptyString => Ok "."
  | VStr (String c0 tl) =>
      let hasRoot := is_slash c0 in
      let r1 := drop_while is_slash (rev (list_ascii_of_string tl)) in
      match drop_while (fun c => negb (is_slash c)) r1 with
      | [] => Ok (if hasRoot then "/" else ".")
      | _ :: r3 =>
          match r3 with
          | [] => Ok (if hasRoot then "//" else String c0 "")
          | _ => Ok (String c0 (string_of_list_ascii (rev r3)))
          end
      end
  | _ => Throw TypeError
  end.

(** Vocabulary for the facts about paths. *)

Fixpoint has_slash (s : string) : bool :=
  match s with
  | EmptyString => false
  | String c s' => is_slash c || has_slash s'
  end.

(** A segment of a normalized path: not empty, no separator inside. *)
Definition segment (s : string) : Prop := s <> "" /\ has_slash s = false.

Definition all_strings (args : list value) : Prop :=
  Forall (fun v => exists s, v = VStr s) args.

End Path.

(** ** The host of the module *)

(** Modelled from the spec: the project-paths module [./paths] that
    [modules.js] requires is not part of the sources at hand.  The spec gives
    it as the absolute project root, the absolute [node_modules] directory
    and the absolute [src] directory, fixed for the life of the process; the
    two config file names are the ones [getModules] tests.  The values are
    left open: every function below takes them as a parameter. *)
Record project_paths : Type := {
  appPath : string;
  appSrc : string;
  appNodeModules : string;
  appTsConfig : string;
  appJsConfig : string
}.

(** What the module asks of its host, in the order of the source:
    [fs.existsSync], [require] of a config file, and the TypeScript compiler
    found by [resolve.sync] and loaded by [require], used through
    [ts.readConfigFile(file, ts.sys.readFile)].  [process.cwd()] is an
    absolute path. *)
Record host : Type := {
  cwd : string;
  cwd_absolute : Path.starts_with_slash cwd = true;
  paths : project_paths;
  existsSync : string -> bool;
  require : string -> result value;
  typescript : result (string -> value)
}.

Inductive event : Type :=
| ExistsSync (file : string)
| Require (file : string)
| RequireTypescript
| ReadConfigFile (file : string).

(** Computations that call the host: the result, and the calls made so far
    (oldest first), kept when an exception is raised. *)
Definition M (A : Type) : Type := list event -> result A * list event.

Definition ret {A : Type} (a : A) : M A := fun t => (Ok a, t).

Definition throw {A : Type} (e : exn) : M A := fun t => (Throw e, t).

Definition lift {A : Type} (r : result A) : M A := fun t => (r, t).

Definition call {A : Type} (e : event) (r : result A) : M A :=
  fun t => (r, (t ++ [e])%list).

Definition mbind {A B : Type} (m : M A) (k : A -> M B) : M B :=
  fun t =>
    match m t with
    | (Ok a, t') => k a t'
    | (Throw e, t') => (Throw e, t')
    end.

Notation "x <- m ;; k" := (mbind m (fun x => k))
  (at level 61, m at next level, right associativity) : js_scope.

Definition run {A : Type} (m : M A) : result A * list event := m [].

(** ** [modules.js] *)

(** A parameter declared as [options = {}]. *)
Definition default_arg (v d : value) : value :=
  match v with
  | VUndefined => d
  | _ => v
  end.

Definition is_empty (s : string) : bool := String.eqb s "".

Section Modules.

Variable h : host.

Let P : project_paths := paths h.

(** modules.js:22-58 *)
Definition getAdditionalModulePaths (options : value) : result value :=
  let options := default_arg options (VObj []) in
  let* baseUrl := get options "baseUrl" in
  if negb (truthy baseUrl) then Ok (VStr "")
  else
    let* baseUrlResolved := Path.resolve (cwd h) [VStr (appPath P); baseUrl] in
    let* r := Path.relative (cwd h) (VStr (appNodeModules P))
                (VStr baseUrlResolved) in
    if is_empty r then Ok VNull
    else
      let* r := Path.relative (cwd h) (VStr (appSrc P))
                  (VStr baseUrlResolved) in
      if is_empty r then Ok (VArr [VStr (appSrc P)])
      else
        let* r := Path.relative (cwd h) (VStr (appPath P))
                    (VStr baseUrlResolved) in
        if is_empty r then Ok VNull
        else Throw UnsupportedBaseUrlError.

(** modules.js:65-84.  After the destructuring of line 66 the name [paths]
    is the [paths] property of [options], not the project-paths module. *)
Definition getWebpackAliases (options : value) : result value :=
  let options := default_arg options (VObj []) in
  let* baseUrl := get options "baseUrl" in
  let* paths := get options "paths" in
  if negb (truthy baseUrl) && truthy paths then Ok paths
  else if negb (truthy baseUrl) then Ok (VObj [])
  else
    let* root := get paths "appPath" in
    let* baseUrlResolved := Path.resolve (cwd h) [root; baseUrl] in
    let* root := get paths "appPath" in
    let* r := Path.relative (cwd h) root (VStr baseUrlResolved) in
    if is_empty r then
      let* src := get paths "appSrc" in
      Ok (VObj (spread (define [] "src" src) paths))
    else Ok VUndefined.

(** modules.js:91-105 *)
Definition getJestAliases (options : value) : result value :=
  let options := default_arg options (VObj []) in
  let* baseUrl := get options "baseUrl" in
  if negb (truthy baseUrl) then Ok (VObj [])
  else
    let* baseUrlResolved := Path.resolve (cwd h) [VStr (appPath P); baseUrl] in
    let* r := Path.relative (cwd h) (VStr (appPath P))
                (VStr baseUrlResolved) in
    if is_empty r then Ok (VObj [("^src/(.*)$", VStr "<rootDir>/src/$1")])
    else Ok VUndefined.

(** [c.compilerOptions && c.compilerOptions.paths ? c.compilerOptions.paths
    : {}], the expression of lines 109-112 and 115-118. *)
Definition paths_or_empty (c : value) : result value :=
  let* co := get c "compilerOptions" in
  if truthy co then
    let* p := get co "paths" in
    if truthy p then get co "paths" else Ok (VObj [])
  else Ok (VObj []).

(** modules.js:108-133 *)
Definition configPathsRaw (conf : value) : result value :=
  let* confPaths := paths_or_empty conf in
  let* e := get conf "extends" in
  let ext := js_or e (VObj []) in
  let* extPaths := paths_or_empty ext in
  if negb (is_object_type confPaths) then Throw (InvalidPathsError OwnPaths)
  else if negb (is_object_type extPaths)
  then Throw (InvalidPathsError InheritedPaths)
  else Ok (VObj (spread (spread [] confPaths) extPaths)).

(** [s.replace(/\/\*$/, '')] on a string: one trailing [/*] is removed. *)
Fixpoint strip_glob (s : string) : string :=
  match s with
  | EmptyString => ""
  | String c s' => if String.eqb s "/*" then "" else String c (strip_glob s')
  end.

(** [target.replace(...)]: only a string has a [replace] method to call. *)
Definition replace_glob (target : value) : result string :=
  match target with
  | VStr s => Ok (strip_glob s)
  | _ => Throw TypeError
  end.

(** Line 154: [Array.isArray(value) ? value[0] : value]. *)
Definition target_of (v : value) : value :=
  match v with
  | VArr _ => get_own v "0"
  | _ => v
  end.

(** The callback of the [reduce] of lines 152-157; [path] is a key of
    [pathsRaw], and [paths] is the project-paths module here. *)
Definition alias_step (pathsRaw : value) (a : props) (path : string)
  : result props :=
  let value := get_own pathsRaw path in
  let target := target_of value in
  let key := strip_glob path in
  let* t := replace_glob target in
  let* r := Path.resolve (cwd h) [VStr (appPath P); VStr t] in
  Ok (assign a key (VStr r)).

Fixpoint reduce (f : props -> string -> result props) (keys : list string)
  (a : props) : result props :=
  match keys with
  | [] => Ok a
  | k :: keys' => let* a' := f a k in reduce f keys' a'
  end.

Definition aliasMap (pathsRaw : value) : result props :=
  reduce (alias_step pathsRaw) (own_keys pathsRaw) [].

(** Lines 142 and 146: [config = { ...conf }], then
    [config.extends = parent]. *)
Definition extendedConfig (conf parent : value) : value :=
  VObj (assign (spread [] conf) "extends" parent).

(** Lines 150-168: the paths of [config] merged, turned into aliases and
    written back under [compilerOptions.paths]. *)
Definition resolvedConfig (config : value) : result value :=
  let* pathsRaw := configPathsRaw config in
  let* aliases := aliasMap pathsRaw in
  let* co := get config "compilerOptions" in
  let inner := spread [] co in
  let* ownPaths := get co "paths" in
  let merged := spread (spread [] ownPaths) (VObj aliases) in
  let inner := define inner "paths" (VObj merged) in
  Ok (VObj (define (spread [] config) "compilerOptions" (VObj inner))).

(** modules.js:135-169 *)
Definition readConfig (conf : value) (configDir : string) : M value :=
  if negb (truthy conf) then throw NoConfigError
  else
    confdir <- lift (Path.dirname (VStr configDir)) ;;
    extUrl <- lift (get conf "extends") ;;
    extPath <- (if truthy extUrl
                then lift (Path.resolve (cwd h) [VStr confdir; extUrl])
                else ret "") ;;
    parent <- (if truthy extUrl
               then call (Require extPath) (require h extPath)
               else ret (VObj [])) ;;
    lift (resolvedConfig (extendedConfig conf parent)).

(** Lines 192-196 and 201-205, the same in both branches of [getModules]:
    [readConfig] runs only on a config with a truthy [extends]. *)
Definition resolveExtends (config : value) (configFile : string) : M value :=
  hasExtends <- lift (get config "extends") ;;
  if truthy hasExtends then readConfig config configFile
  else ret config.

Record bundle : Type := {
  additionalModulePaths : value;
  webpackAliases : value;
  jestAliases : value;
  hasTsConfig : bool
}.

(** Lines 182-206: the config the options are taken from. *)
Definition loadConfig (hasTs hasJs : bool) : M value :=
  if hasTs then
    ts <- call RequireTypescript (typescript h) ;;
    read <- call (ReadConfigFile (appTsConfig P)) (Ok (ts (appTsConfig P))) ;;
    config <- lift (get read "config") ;;
    resolveExtends config (appTsConfig P)
  else if hasJs then
    config <- call (Require (appJsConfig P)) (require h (appJsConfig P)) ;;
    resolveExtends config (appJsConfig P)
  else ret VUndefined.

(** modules.js:171-220 *)
Definition getModules : M bundle :=
  hasTs <- call (ExistsSync (appTsConfig P))
             (Ok (existsSync h (appTsConfig P))) ;;
  hasJs <- call (ExistsSync (appJsConfig P))
             (Ok (existsSync h (appJsConfig P))) ;;
  if hasTs && hasJs then throw ConflictingConfigError
  else
    config <- loadConfig hasTs hasJs ;;
    let config := js_or config (VObj []) in
    co <- lift (get config "compilerOptions") ;;
    let options := js_or co (VObj []) in
    amp <- lift (getAdditionalModulePaths options) ;;
    wa <- lift (getWebpackAliases options) ;;
    ja <- lift (getJestAliases options) ;;
    ret {| additionalModulePaths := amp;
           webpackAliases := wa;
           jestAliases := ja;
           hasTsConfig := hasTs |}.

End Modules.

(** ** Vocabulary of the properties *)

(** [same_dir h dir p]: the test [path.relative(dir, p) === ''] of the
    source succeeds. *)
Definition same_dir (h : host) (dir p : string) : Prop :=
  Path.relative (cwd h) (VStr dir) (VStr p) = Ok "".

Definition same_dirb (h : host) (dir p : string) : bool :=
  match Path.relative (cwd h) (VStr dir) (VStr p) with
  | Ok r => is_empty r
  | Throw _ => false
  end.

(** [baseUrl] is a non-empty string [b] and [path.resolve(root, b)] is
    [resolved]. *)
Definition resolves_to (h : host) (root : string) (baseUrl : value)
  (resolved : string) : Prop :=
  exists b, baseUrl = VStr b /\ b <> "" /\
            Path.resolve (cwd h) [VStr root; VStr b] = Ok resolved.

(** The [compilerOptions.paths] value a config declares: [undefined] when
    there is no [compilerOptions]. *)
Definition declared_paths (c : value) : value :=
  get_own (get_own c "compilerOptions") "paths".

(** The values the two [typeof] checks of [configPathsRaw] reject. *)
Definition rejected_paths (v : value) : bool :=
  truthy v && negb (is_object_type v).

(** The parent's file is found next to [file], loads, and yields
    [parent]: lines 141-146 for a config whose [extends] is [extUrl]. *)
Definition loads_parent (h : host) (file : string) (extUrl : value)
  (extPath : string) (parent : value) : Prop :=
  truthy extUrl = true /\
  (exists confdir,
     Path.dirname (VStr file) = Ok confdir /\
     Path.resolve (cwd h) [VStr confdir; extUrl] = Ok extPath) /\
  require h extPath = Ok parent.

(** [v ? v : {}] *)
Definition or_empty (v : value) : value := if truthy v then v else VObj [].

(** [k] is the last of [keys] to give its alias key once the trailing
    [/*] is stripped. *)
Definition last_for_alias (keys : list string) (k : string) : Prop :=
  exists before after,
    keys = (before ++ k :: after)%list /\
    forall k', In k' after -> strip_glob k' <> strip_glob k.

(** What every entry of an alias map looks like: a key of [keys] without
    its pattern suffix, mapped to an absolute path. *)
Definition alias_entries (keys : list string) (a : props) : Prop :=
  forall k x, lookup k a = Some x ->
    exists k0 r, In k0 keys /\ k = strip_glob k0 /\ x = VStr r /\
                 Path.starts_with_slash r = true.

(** A project at [/app] with a [jsconfig.json] that extends [base.json],
    used to run the module on concrete inputs. *)
Module Sample.

Definition P : project_paths :=
  {| appPath := "/app";
     appSrc := "/app/src";
     appNodeModules := "/app/node_modules";
     appTsConfig := "/app/tsconfig.json";
     appJsConfig := "/app/jsconfig.json" |}.

Definition base : value :=
  VObj [("compilerOptions",
         VObj [("paths",
                VObj [("utils/*", VArr [VStr "./base/utils/*"])])])].

Definition child : value :=
  VObj [("extends", VStr "./base.json");
        ("compilerOptions",
         VObj [("baseUrl", VStr "src");
               ("paths",
                VObj [("utils/*", VArr [VStr "./src/utils/*"]);
                      ("components/*",
                       VArr [VStr "./src/components/*"])])])].

Definition files (jsconfig : value) (f : string) : result value :=
  if String.eqb f "/app/jsconfig.json" then Ok jsconfig
  else if String.eqb f "/app/base.json" then Ok base
  else Throw (HostError f).

(** A JavaScript project: only [jsconfig.json] exists. *)
Definition js_project (jsconfig : value) : host :=
  {| cwd := "/home/dev";
     cwd_absolute := eq_refl;
     paths := P;
     existsSync := fun f => String.eqb f "/app/jsconfig.json";
     require := files jsconfig;
     typescript := Throw (HostError "Cannot find module 'typescript'") |}.

(** A project with both config files. *)
Definition both_configs : host :=
  {| cwd := "/home/dev";
     cwd_absolute := eq_refl;
     paths := P;
     existsSync := fun f => String.eqb f "/app/jsconfig.json"
                            || String.eqb f "/app/tsconfig.json";
     require := files child;
     typescript := Ok (fun _ => VObj [("config", child)]) |}.

End Sample.

(** * Properties *)

Lemma Ok_inj {A : Type} (a b : A) : Ok a = Ok b -> a = b.
Proof. intros H. injection H. auto. Qed.

(** ** Objects: reading after defining and spreading *)

Section ObjectFacts.

Lemma eqb_sym_false (a b : string) :
  String.eqb a b = false -> String.eqb b a = false.
Proof. rewrite (String.eqb_sym a b). auto. Qed.

Lemma lookup_app (k : string) (o1 o2 : props) :
  lookup k (o1 ++ o2)%list =
  match lookup k o1 with
  | Some x => Some x
  | None => lookup k o2
  end.
Proof.
  induction o1 as [|[k1 v1] o1 IH]; simpl; [reflexivity|].
  destruct (String.eqb k k1); [reflexivity | exact IH].
Qed.

Lemma lookup_replace_value (k k' : string) (v : value) (o : props) :
  has_key k o = true ->
  lookup k' (replace_value k v o) =
  if String.eqb k' k then Some v else lookup k' o.
Proof.
  unfold has_key.
  induction o as [|[k1 v1] o IH]; simpl; [discriminate|].
  destruct (String.eqb k k1) eqn:E.
  - intros _. apply String.eqb_eq in E. subst k1. simpl.
    destruct (String.eqb k' k); reflexivity.
  - intros Hk. simpl. destruct (String.eqb k' k1) eqn:E1.
    + apply String.eqb_eq in E1. subst k1.
      rewrite (eqb_sym_false _ _ E). reflexivity.
    + apply IH. exact Hk.
Qed.

Lemma lookup_insert_index (n : N) (k k' : string) (v : value) (o : props) :
  has_key k o = false ->
  lookup k' (insert_index n k v o) =
  if String.eqb k' k then Some v else lookup k' o.
Proof.
  unfold has_key.
  induction o as [|[k1 v1] o IH]; simpl.
  - intros _. destruct (String.eqb k' k); reflexivity.
  - destruct (String.eqb k k1) eqn:E; [discriminate|]. intros Hk.
    destruct (array_index k1) as [m|]; [destruct (N.ltb n m)|];
      simpl; try reflexivity.
    destruct (String.eqb k' k1) eqn:E1.
    + apply String.eqb_eq in E1. subst k1.
      rewrite (eqb_sym_false _ _ E). reflexivity.
    + apply IH. exact Hk.
Qed.

(** Reading a key of an object after [define]: the new value under the
    defined key, the old one under every other key. *)
Lemma lookup_define (o : props) (k k' : string) (v : value) :
  lookup k' (define o k v) = if String.eqb k' k then Some v else lookup k' o.
Proof.
  unfold define. destruct (has_key k o) eqn:Hk.
  - apply lookup_replace_value. exact Hk.
  - destruct (array_index k) as [n|].
    + apply lookup_insert_index. exact Hk.
    + rewrite lookup_app. simpl. unfold has_key in Hk.
      destruct (String.eqb k' k) eqn:E.
      * apply String.eqb_eq in E. subst k'.
        destruct (lookup k o); [discriminate | reflexivity].
      * destruct (lookup k' o); reflexivity.
Qed.

Lemma lookup_assign (o : props) (k k' : string) (v : value) :
  String.eqb k "__proto__" = false ->
  lookup k' (assign o k v) = if String.eqb k' k then Some v else lookup k' o.
Proof. intros E. unfold assign. rewrite E. apply lookup_define. Qed.

Lemma lookup_assign_other (o : props) (k k' : string) (v : value) :
  String.eqb k' k = false -> lookup k' (assign o k v) = lookup k' o.
Proof.
  intros E. unfold assign. destruct (String.eqb k "__proto__");
    [reflexivity|]. rewrite lookup_define, E. reflexivity.
Qed.

Lemma lookup_fold_define (g : string -> value) (k : string)
  (keys : list string) (acc : props) :
  lookup k (fold_left (fun a k' => define a k' (g k')) keys acc) =
  if existsb (String.eqb k) keys then Some (g k) else lookup k acc.
Proof.
  revert acc. induction keys as [|k0 keys IH]; intros acc; simpl;
    [reflexivity|].
  rewrite IH, lookup_define.
  destruct (String.eqb k k0) eqn:E; simpl.
  - apply String.eqb_eq in E. subst k0.
    destruct (existsb (String.eqb k) keys); reflexivity.
  - reflexivity.
Qed.

Lemma existsb_keys (k : string) (o : props) :
  existsb (String.eqb k) (map fst o) = has_key k o.
Proof.
  unfold has_key. induction o as [|[k1 v1] o IH]; simpl; [reflexivity|].
  destruct (String.eqb k k1); simpl; [reflexivity | exact IH].
Qed.

(** Reading a key after [{ ...acc, ...obj }]: the entry of [obj] when it has
    the key, the entry of [acc] otherwise. *)
Lemma lookup_spread_obj (acc o : props) (k : string) :
  lookup k (spread acc (VObj o)) =
  match lookup k o with
  | Some x => Some x
  | None => lookup k acc
  end.
Proof.
  unfold spread. rewrite lookup_fold_define. simpl own_keys.
  rewrite existsb_keys. unfold has_key. simpl.
  destruct (lookup k o); reflexivity.
Qed.

End ObjectFacts.

(** ** Objects: the order of the keys *)

Section KeyOrder.

Lemma array_index_inj (k k' : string) (n : N) :
  array_index k = Some n -> array_index k' = Some n -> k = k'.
Proof.
  unfold array_index.
  destruct (NilEmpty.uint_of_string k) as [u|]; [|discriminate].
  destruct (NilEmpty.uint_of_string k') as [u'|]; [|discriminate].
  destruct (String.eqb _ k && _) eqn:E; [|discriminate].
  destruct (String.eqb _ k' && _) eqn:E'; [|discriminate].
  intros [= <-] [= Hn].
  apply andb_true_iff in E, E'. destruct E as [E _], E' as [E' _].
  apply String.eqb_eq in E, E'. rewrite <- E, <- E', Hn. reflexivity.
Qed.

Lemma keys_replace_value (k : string) (v : value) (o : props) :
  map fst (replace_value k v o) = map fst o.
Proof.
  induction o as [|[k1 v1] o IH]; simpl; [reflexivity|].
  destruct (String.eqb k k1); simpl; [reflexivity | rewrite IH; reflexivity].
Qed.

Lemma forallb_after_insert (m n : N) (k : string) (v : value) (o : props) :
  array_index k = Some n -> N.ltb m n = true ->
  forallb (after_index m) (map fst o) = true ->
  forallb (after_index m) (map fst (insert_index n k v o)) = true.
Proof.
  intros Hk Hmn. induction o as [|[k1 v1] o IH]; simpl.
  - intros _. unfold after_index. rewrite Hk, Hmn. reflexivity.
  - intros H. apply andb_true_iff in H. destruct H as [H1 H2].
    assert (Hnew : after_index m k = true)
      by (unfold after_index; rewrite Hk; exact Hmn).
    destruct (array_index k1) as [m1|] eqn:E1;
      [destruct (N.ltb n m1)|]; simpl; rewrite ?Hnew, ?H1, ?H2; simpl;
      auto.
Qed.

Lemma key_order_insert (n : N) (k : string) (v : value) (o : props) :
  array_index k = Some n -> has_key k o = false ->
  key_order (map fst o) = true ->
  key_order (map fst (insert_index n k v o)) = true.
Proof.
  intros Hk. induction o as [|[k1 v1] o IH]; simpl.
  - intros _ _. rewrite Hk. reflexivity.
  - unfold has_key. simpl. destruct (String.eqb k k1) eqn:E; [discriminate|].
    fold (has_key k o). intros Hno Hord.
    destruct (array_index k1) as [m|] eqn:E1.
    + apply andb_true_iff in Hord. destruct Hord as [Hall Hord].
      destruct (N.ltb n m) eqn:Hlt; simpl.
      * rewrite Hk, E1. simpl. unfold after_index at 1. rewrite E1, Hlt.
        simpl. apply andb_true_iff. split; [|apply andb_true_iff; auto].
        clear - Hall Hlt. induction (map fst o) as [|k' ks IH]; simpl in *;
          [reflexivity|].
        apply andb_true_iff in Hall. destruct Hall as [H1 H2].
        rewrite (IH H2), andb_true_r. unfold after_index in *.
        destruct (array_index k'); [|reflexivity].
        apply N.ltb_lt in Hlt, H1. apply N.ltb_lt. lia.
      * rewrite E1. apply andb_true_iff. split; [|apply IH; assumption].
        apply forallb_after_insert; try assumption.
        apply N.ltb_lt. apply N.ltb_ge in Hlt.
        assert (n <> m).
        { intros ->. apply String.eqb_neq in E. apply E.
          eapply array_index_inj; eassumption. }
        lia.
    + simpl. rewrite Hk, E1. simpl.
      (* names only after k1: nothing to insert before *)
      unfold after_index. rewrite E1. simpl.
      apply andb_true_iff. split.
      * clear - Hord. induction (map fst o) as [|k' ks IH]; simpl in *;
          [reflexivity|].
        apply andb_true_iff in Hord. destruct Hord as [H1 H2].
        rewrite (IH H2), andb_true_r. unfold is_name in H1.
        destruct (array_index k'); [discriminate | reflexivity].
      * exact Hord.
Qed.

Lemma key_order_append (k : string) (ks : list string) :
  array_index k = None -> key_order ks = true ->
  key_order (ks ++ [k])%list = true.
Proof.
  intros Hk. induction ks as [|k1 ks IH]; simpl.
  - intros _. rewrite Hk. reflexivity.
  - destruct (array_index k1) as [m|].
    + intros H. apply andb_true_iff in H. destruct H as [H1 H2].
      rewrite forallb_app, H1, (IH H2). simpl. unfold after_index.
      rewrite Hk. reflexivity.
    + intros H. rewrite forallb_app, H. simpl. unfold is_name.
      rewrite Hk. reflexivity.
Qed.

(** [define] keeps the keys in enumeration order: array indices in
    ascending order first, then the other keys as they were added. *)
Lemma key_order_define (o : props) (k : string) (v : value) :
  key_order (map fst o) = true ->
  key_order (map fst (define o k v)) = true.
Proof.
  intros Hord. unfold define. destruct (has_key k o) eqn:Hk.
  - rewrite keys_replace_value. exact Hord.
  - destruct (array_index k) as [n|] eqn:E.
    + apply key_order_insert; assumption.
    + rewrite map_app. apply key_order_append; assumption.
Qed.

Lemma key_order_spread (acc : props) (v : value) :
  key_order (map fst acc) = true ->
  key_order (map fst (spread acc v)) = true.
Proof.
  unfold spread. revert acc.
  induction (own_keys v) as [|k ks IH]; intros acc H; simpl; [exact H|].
  apply IH. apply key_order_define. exact H.
Qed.


Lemma key_order_assign (o : props) (k : string) (v : value) :
  key_order (map fst o) = true ->
  key_order (map fst (assign o k v)) = true.
Proof.
  intros H. unfold assign. destruct (String.eqb k "__proto__");
    [exact H | apply key_order_define; exact H].
Qed.

(** The merged paths object comes out in enumeration order. *)
Lemma key_order_configPathsRaw (conf : value) (merged : props) :
  configPathsRaw conf = Ok (VObj merged) ->
  key_order (map fst merged) = true.
Proof.
  unfold configPathsRaw.
  destruct (paths_or_empty conf) as [cp|]; cbn [bind]; [|discriminate].
  destruct (get conf "extends") as [e|]; cbn [bind]; [|discriminate].
  destruct (paths_or_empty (js_or e (VObj []))) as [ep|]; cbn [bind];
    [|discriminate].
  destruct (negb (is_object_type cp)); [discriminate|].
  destruct (negb (is_object_type ep)); [discriminate|].
  intros [= <-]. apply key_order_spread, key_order_spread. reflexivity.
Qed.

End KeyOrder.

(** ** Paths: when [path.relative] is empty *)

Module PathFacts.
Import Path.

Lemma split_slash_free (s : string) :
  Forall (fun seg => has_slash seg = false) (split_slash s).
Proof.
  induction s as [|c s IH]; simpl.
  - constructor; [reflexivity | constructor].
  - destruct (is_slash c) eqn:E.
    + constructor; [reflexivity | exact IH].
    + destruct (split_slash s) as [|seg rest].
      * constructor; [simpl; rewrite E; reflexivity | constructor].
      * inversion IH; subst. constructor; [|assumption].
        simpl. rewrite E. assumption.
Qed.

Lemma normalize_segments_ok (b : bool) (segs stack : list string) :
  Forall (fun seg => has_slash seg = false) segs ->
  Forall segment stack ->
  Forall segment (normalize_segments b segs stack).
Proof.
  revert stack. induction segs as [|seg segs IH]; intros stack Hs Hst; simpl.
  - apply Forall_rev. exact Hst.
  - inversion Hs as [|? ? Hseg Hsegs]; subst.
    destruct (String.eqb seg "") eqn:E0; simpl; [apply IH; assumption|].
    destruct (String.eqb seg ".") eqn:E1; simpl; [apply IH; assumption|].
    assert (Hgood : segment seg).
    { split; [|exact Hseg]. intros ->. discriminate. }
    destruct (String.eqb seg "..") eqn:E2.
    + destruct stack as [|top stack'].
      * apply IH; [assumption|]. destruct b; repeat constructor; apply Hgood.
      * inversion Hst; subst.
        destruct (String.eqb top "..").
        -- apply IH; [assumption|]. destruct b; [constructor|]; assumption.
        -- apply IH; assumption.
    + apply IH; [assumption|]. constructor; assumption.
Qed.

Lemma split_slash_app (seg rest : string) :
  has_slash seg = false ->
  split_slash (seg ++ "/" ++ rest) = seg :: split_slash rest.
Proof.
  induction seg as [|c seg IH]; intros H.
  - reflexivity.
  - simpl in H. apply orb_false_iff in H. destruct H as [Hc Hs].
    change (split_slash (String c seg ++ "/" ++ rest))
      with (if is_slash c then "" :: split_slash (seg ++ "/" ++ rest)
            else match split_slash (seg ++ "/" ++ rest) with
                 | seg0 :: rest0 => String c seg0 :: rest0
                 | [] => [String c ""]
                 end).
    rewrite Hc, (IH Hs). reflexivity.
Qed.

Lemma split_slash_one (seg : string) :
  has_slash seg = false -> split_slash seg = [seg].
Proof.
  induction seg as [|c seg IH]; simpl; intros H; [reflexivity|].
  apply orb_false_iff in H. destruct H as [Hc Hs].
  rewrite Hc, (IH Hs). reflexivity.
Qed.

Lemma split_join (ns : list string) :
  Forall segment ns -> ns <> [] -> split_slash (join_slash ns) = ns.
Proof.
  induction ns as [|n ns IH]; intros H Hne; [contradiction|].
  inversion H as [|? ? [_ Hn] Hns]; subst.
  destruct ns as [|n' ns'].
  - simpl. apply split_slash_one. exact Hn.
  - change (join_slash (n :: n' :: ns'))
      with (n ++ "/" ++ join_slash (n' :: ns')).
    rewrite (split_slash_app _ _ Hn), IH; [reflexivity | exact Hns |].
    discriminate.
Qed.

Lemma filter_segments (ns : list string) :
  Forall segment ns ->
  filter (fun seg => negb (String.eqb seg "")) ns = ns.
Proof.
  induction 1 as [|n ns [Hn _] _ IH]; simpl; [reflexivity|].
  destruct (String.eqb n "") eqn:E.
  - apply String.eqb_eq in E. contradiction.
  - simpl. rewrite IH. reflexivity.
Qed.

(** The segments of a rendered absolute path are the ones it was made of. *)
Lemma segments_render (ns : list string) :
  Forall segment ns -> segments (render true ns) = ns.
Proof.
  intros H. unfold segments, render. simpl.
  destruct ns as [|n ns'].
  - reflexivity.
  - rewrite split_join; [|exact H | discriminate].
    apply filter_segments. exact H.
Qed.

Lemma join_slash_empty (ns : list string) :
  Forall (fun s => s <> "") ns -> join_slash ns = "" -> ns = [].
Proof.
  destruct ns as [|n ns]; [reflexivity|].
  intros H. inversion H as [|? ? Hn _]; subst. simpl.
  destruct ns as [|n' ns'].
  - intros ->. contradiction.
  - destruct n; [contradiction | discriminate].
Qed.

Lemma drop_common_nil (fs ts : list string) :
  drop_common fs ts = ([], []) -> fs = ts.
Proof.
  revert ts. induction fs as [|f fs IH]; intros [|t ts]; simpl;
    try congruence.
  destruct (String.eqb f t) eqn:E; [|discriminate].
  apply String.eqb_eq in E. subst t. intros H. f_equal. apply IH. exact H.
Qed.

Lemma drop_common_suffix (fs ts rf rt : list string) (Q : string -> Prop) :
  drop_common fs ts = (rf, rt) -> Forall Q fs -> Forall Q ts ->
  Forall Q rf /\ Forall Q rt.
Proof.
  revert ts. induction fs as [|f fs IH]; intros [|t ts]; simpl;
    try (intros [= <- <-]; auto).
  destruct (String.eqb f t); [|intros [= <- <-]; auto].
  intros H Hf Ht. inversion Hf; inversion Ht; subst. eapply IH; eauto.
Qed.

Lemma climb_empty (fs ts : list string) :
  Forall segment fs -> Forall segment ts -> climb fs ts = "" -> fs = ts.
Proof.
  intros Hf Ht. unfold climb.
  destruct (drop_common fs ts) as [rf rt] eqn:E. intros Hj.
  destruct (drop_common_suffix _ _ _ _ _ E Hf Ht) as [Hrf Hrt].
  apply join_slash_empty in Hj.
  - apply app_eq_nil in Hj. destruct Hj as [Hm ->].
    apply map_eq_nil in Hm. subst rf. apply drop_common_nil. exact E.
  - apply Forall_app. split.
    + apply Forall_map. apply Forall_forall. intros; discriminate.
    + eapply Forall_impl; [|exact Hrt]. intros a [Ha _]. exact Ha.
Qed.

Lemma resolve_args_strings (cwd : string) (args : list value) (acc : string) :
  starts_with_slash cwd = true -> all_strings args ->
  exists p, resolve_args cwd args acc = Ok (p, true).
Proof.
  intros Hc H. revert acc.
  induction H as [|v args [s ->] _ IH]; intros acc; simpl.
  - destruct cwd as [|c cwd]; [discriminate|]. simpl in *. rewrite Hc. eauto.
  - destruct (String.eqb s ""); [apply IH|].
    destruct (starts_with_slash s); [eauto | apply IH].
Qed.

(** With string arguments [path.resolve] raises nothing and returns an
    absolute path made of proper segments. *)
Lemma resolve_strings (cwd : string) (args : list value) :
  starts_with_slash cwd = true -> all_strings args ->
  exists ns, Forall segment ns /\ resolve cwd args = Ok (render true ns).
Proof.
  intros Hc H. unfold resolve.
  destruct (resolve_args_strings cwd (rev args) "" Hc) as [p Hp].
  { apply Forall_rev. exact H. }
  rewrite Hp. simpl. eexists. split; [|reflexivity].
  apply normalize_segments_ok; [apply split_slash_free | constructor].
Qed.

Lemma all_strings_1 (a : string) : all_strings [VStr a].
Proof. repeat constructor; eauto. Qed.

Lemma all_strings_2 (a b : string) : all_strings [VStr a; VStr b].
Proof. repeat constructor; eauto. Qed.

(** [path.relative(from, to) === ''] exactly when both arguments resolve
    to the same path. *)
Lemma relative_empty_iff (cwd f t : string) :
  starts_with_slash cwd = true ->
  relative cwd (VStr f) (VStr t) = Ok "" <->
  resolve cwd [VStr f] = resolve cwd [VStr t].
Proof.
  intros Hc.
  destruct (resolve_strings cwd [VStr f] Hc (all_strings_1 f))
    as (fs & Hfs & Ef).
  destruct (resolve_strings cwd [VStr t] Hc (all_strings_1 t))
    as (ts & Hts & Et).
  unfold relative. destruct (String.eqb f t) eqn:E.
  - apply String.eqb_eq in E. subst t. split; reflexivity.
  - rewrite Ef, Et. cbn [bind].
    destruct (String.eqb (render true fs) (render true ts)) eqn:E'.
    + apply String.eqb_eq in E'. rewrite E'. split; reflexivity.
    + split.
      * intros Hcl. apply Ok_inj in Hcl.
        rewrite !segments_render in Hcl by assumption.
        apply climb_empty in Hcl; try assumption. subst ts. reflexivity.
      * intros Heq. assert (Hr : render true fs = render true ts)
          by congruence.
        rewrite Hr, String.eqb_refl in E'. discriminate.
Qed.

Lemma relative_strings (cwd f t : string) :
  starts_with_slash cwd = true ->
  exists r, relative cwd (VStr f) (VStr t) = Ok r.
Proof.
  intros Hc.
  destruct (resolve_strings cwd [VStr f] Hc (all_strings_1 f))
    as (fs & _ & Ef).
  destruct (resolve_strings cwd [VStr t] Hc (all_strings_1 t))
    as (ts & _ & Et).
  unfold relative. destruct (String.eqb f t); [eauto|].
  rewrite Ef, Et. cbn [bind]. destruct (String.eqb _ _); eauto.
Qed.

End PathFacts.

(** ** The tests on [baseUrl] *)

Section BaseUrl.

Variable h : host.

Lemma same_dirb_true (dir p : string) :
  same_dirb h dir p = true <-> same_dir h dir p.
Proof.
  unfold same_dirb, same_dir.
  destruct (Path.relative (cwd h) (VStr dir) (VStr p)) as [r|e].
  - unfold is_empty. rewrite String.eqb_eq. split; congruence.
  - split; discriminate.
Qed.


Lemma same_dir_resolve (dir p : string) :
  same_dir h dir p <->
  Path.resolve (cwd h) [VStr dir] = Path.resolve (cwd h) [VStr p].
Proof. apply PathFacts.relative_empty_iff. apply cwd_absolute. Qed.

(** Two directories that both pass the test against one path pass it
    against each other. *)
Lemma same_dir_join (d1 d2 p : string) :
  same_dir h d1 p -> same_dir h d2 p -> same_dir h d1 d2.
Proof. rewrite !same_dir_resolve. congruence. Qed.

Lemma relative_test (dir p : string) :
  exists r, Path.relative (cwd h) (VStr dir) (VStr p) = Ok r /\
            is_empty r = same_dirb h dir p.
Proof.
  destruct (PathFacts.relative_strings (cwd h) dir p (cwd_absolute h))
    as [r Hr].
  exists r. unfold same_dirb. rewrite Hr. auto.
Qed.

Lemma truthy_string (b : string) : b <> "" -> truthy (VStr b) = true.
Proof.
  intros Hb. simpl. destruct (String.eqb b "") eqn:E; [|reflexivity].
  apply String.eqb_eq in E. contradiction.
Qed.

Lemma resolve_total (root b : string) :
  exists resolved, Path.resolve (cwd h) [VStr root; VStr b] = Ok resolved.
Proof.
  destruct (PathFacts.resolve_strings (cwd h) [VStr root; VStr b]
              (cwd_absolute h) (PathFacts.all_strings_2 root b))
    as (ns & _ & E).
  eauto.
Qed.

Ltac run_test dir p :=
  let r := fresh "r" in
  let Hr := fresh "Hr" in
  let Hb := fresh "Hb" in
  destruct (relative_test dir p) as (r & Hr & Hb);
  rewrite Hr; cbn [bind]; rewrite Hb; clear r Hr Hb.

(** The three tests of [getAdditionalModulePaths], in the order of the
    source, on a [baseUrl] that is a non-empty string. *)
Lemma getAdditionalModulePaths_tests (o : props) (resolved : string) :
  resolves_to h (appPath (paths h)) (get_own (VObj o) "baseUrl") resolved ->
  getAdditionalModulePaths h (VObj o) =
  if same_dirb h (appNodeModules (paths h)) resolved then Ok VNull
  else if same_dirb h (appSrc (paths h)) resolved
       then Ok (VArr [VStr (appSrc (paths h))])
       else if same_dirb h (appPath (paths h)) resolved then Ok VNull
            else Throw UnsupportedBaseUrlError.
Proof.
  intros (b & Hb & Hne & Hres). unfold getAdditionalModulePaths.
  cbn [default_arg get bind]. rewrite Hb, (truthy_string b Hne).
  cbn [negb]. rewrite Hres. cbn [bind].
  run_test (appNodeModules (paths h)) resolved.
  destruct (same_dirb h (appNodeModules (paths h)) resolved); [reflexivity|].
  run_test (appSrc (paths h)) resolved.
  destruct (same_dirb h (appSrc (paths h)) resolved); [reflexivity|].
  run_test (appPath (paths h)) resolved.
  reflexivity.
Qed.

Lemma getAdditionalModulePaths_falsy (o : props) :
  truthy (get_own (VObj o) "baseUrl") = false ->
  getAdditionalModulePaths h (VObj o) = Ok (VStr "").
Proof.
  intros Hf. unfold getAdditionalModulePaths. cbn [default_arg get bind].
  rewrite Hf. reflexivity.
Qed.

(** A truthy [baseUrl] that is not a string stops [path.resolve]. *)
Lemma resolve_not_string (root v : value) :
  (forall s, v <> VStr s) -> Path.resolve (cwd h) [root; v] = Throw TypeError.
Proof.
  intros Hv. unfold Path.resolve. simpl.
  destruct v; try reflexivity. exfalso. eapply Hv. reflexivity.
Qed.

Lemma getJestAliases_tests (o : props) (resolved : string) :
  resolves_to h (appPath (paths h)) (get_own (VObj o) "baseUrl") resolved ->
  getJestAliases h (VObj o) =
  if same_dirb h (appPath (paths h)) resolved
  then Ok (VObj [("^src/(.*)$", VStr "<rootDir>/src/$1")])
  else Ok VUndefined.
Proof.
  intros (b & Hb & Hne & Hres). unfold getJestAliases.
  cbn [default_arg get bind]. rewrite Hb, (truthy_string b Hne).
  cbn [negb]. rewrite Hres. cbn [bind].
  run_test (appPath (paths h)) resolved.
  reflexivity.
Qed.

End BaseUrl.

Section BaseUrlCases.

Variable h : host.

Lemma getAdditionalModulePaths_not_string (o : props) :
  truthy (get_own (VObj o) "baseUrl") = true ->
  (forall s, get_own (VObj o) "baseUrl" <> VStr s) ->
  getAdditionalModulePaths h (VObj o) = Throw TypeError.
Proof.
  intros Ht Hs. unfold getAdditionalModulePaths.
  cbn [default_arg get bind]. rewrite Ht. cbn [negb].
  rewrite (resolve_not_string h _ _ Hs). reflexivity.
Qed.

(** What a [baseUrl] can be: falsy, a non-empty string with its resolved
    path, or truthy without being a string. *)
Lemma baseUrl_cases (root : string) (v : value) :
  truthy v = false \/
  (exists resolved, resolves_to h root v resolved) \/
  (truthy v = true /\ forall s, v <> VStr s).
Proof.
  destruct (truthy v) eqn:Ht; [|auto]. right.
  destruct v; try (right; split; [reflexivity | intros; discriminate]).
  left. destruct (resolve_total h root s) as [resolved Hr].
  exists resolved, s. repeat split; [|exact Hr].
  intros ->. discriminate.
Qed.

Lemma resolves_to_truthy (root : string) (v : value) (r : string) :
  resolves_to h root v r -> truthy v = true.
Proof. intros (b & -> & Hb & _). apply truthy_string. exact Hb. Qed.


End BaseUrlCases.

(** ** [getAdditionalModulePaths] *)





(** ** [getJestAliases] *)



(** ** [getModules]: two config files *)

(** C10.  When both [tsconfig.json] and [jsconfig.json] exist, [getModules]
    throws the conflicting-config error and returns no bundle; up to then
    the host has only been asked the two existence questions: no config is
    loaded, merged or turned into aliases. *)
Theorem getModules_conflicting_configs (h : host) :
  existsSync h (appTsConfig (paths h)) = true ->
  existsSync h (appJsConfig (paths h)) = true ->
  run (getModules h) =
  (Throw ConflictingConfigError,
   [ExistsSync (appTsConfig (paths h)); ExistsSync (appJsConfig (paths h))]).
Proof.
  intros Hts Hjs. unfold run, getModules, mbind, call. cbn [app].
  rewrite Hts, Hjs. reflexivity.
Qed.

Lemma getModules_conflicting_configs_witness :
  run (getModules Sample.both_configs) =
  (Throw ConflictingConfigError,
   [ExistsSync "/app/tsconfig.json"; ExistsSync "/app/jsconfig.json"]).
Proof.
  apply (getModules_conflicting_configs Sample.both_configs);
    reflexivity.
Defined.

(** C6.  A config whose [extends] is absent (falsy) goes through the merge
    step of [getModules] unchanged and without any host call: [readConfig]
    is not run, so [extends] is not replaced and [compilerOptions.paths] is
    not rewritten; doing the step again changes nothing; and what
    [getModules] takes its options from is the config exactly as the
    loader returned it. *)
Theorem resolveExtends_without_extends (h : host) (config e : value)
  (file : string) (t : list event) :
  get config "extends" = Ok e ->
  truthy e = false ->
  resolveExtends h config file t = (Ok config, t) /\
  mbind (resolveExtends h config file)
    (fun c => resolveExtends h c file) t = (Ok config, t) /\
  (require h (appJsConfig (paths h)) = Ok config ->
   loadConfig h false true t =
   (Ok config, (t ++ [Require (appJsConfig (paths h))])%list)) /\
  (forall ts,
     typescript h = Ok ts ->
     get (ts (appTsConfig (paths h))) "config" = Ok config ->
     forall hasJs,
       loadConfig h true hasJs t =
       (Ok config,
        (t ++ [RequireTypescript] ++ [ReadConfigFile (appTsConfig (paths h))])
        %list)).
Proof.
  intros He Hf.
  assert (Hstep : forall t', resolveExtends h config file t' = (Ok config, t')).
  { intros t'. unfold resolveExtends, mbind, lift. rewrite He, Hf.
    reflexivity. }
  split; [apply Hstep|]. split; [|split].
  - unfold mbind. rewrite Hstep. apply Hstep.
  - intros Hreq. unfold loadConfig, mbind, call. rewrite Hreq.
    unfold resolveExtends, mbind, lift. rewrite He, Hf. reflexivity.
  - intros ts Hts Hcfg hasJs. unfold loadConfig, mbind, call, lift.
    rewrite Hts, Hcfg.
    unfold resolveExtends, mbind, lift. rewrite He, Hf.
    unfold ret. rewrite <- app_assoc. reflexivity.
Qed.

(** A [jsconfig.json] with [baseUrl] and [paths] but no [extends]. *)
Lemma resolveExtends_without_extends_witness :
  let config :=
    VObj [("compilerOptions",
           VObj [("baseUrl", VStr "src");
                 ("paths", VObj [("utils/*", VArr [VStr "./src/utils/*"])])])]
  in
  let h := Sample.js_project config in
  resolveExtends h config "/app/jsconfig.json" [] = (Ok config, []) /\
  loadConfig h false true
    [ExistsSync "/app/tsconfig.json"; ExistsSync "/app/jsconfig.json"] =
  (Ok config,
   [ExistsSync "/app/tsconfig.json"; ExistsSync "/app/jsconfig.json";
    Require "/app/jsconfig.json"]).
Proof.
  intros config h.
  destruct (resolveExtends_without_extends h config VUndefined
              "/app/jsconfig.json" [] eq_refl eq_refl) as (H1 & _).
  destruct (resolveExtends_without_extends h config VUndefined
              "/app/jsconfig.json"
              [ExistsSync "/app/tsconfig.json";
               ExistsSync "/app/jsconfig.json"] eq_refl eq_refl)
    as (_ & _ & H3 & _).
  split; [exact H1 | exact (H3 eq_refl)].
Defined.

(** [readConfig] on its own is not the identity on such a config:
    [extends] becomes the empty object and the paths become aliases.  The
    guard of [getModules] is what leaves the config alone. *)
Example readConfig_rewrites_without_guard :
  let config :=
    VObj [("compilerOptions",
           VObj [("paths", VObj [("utils/*", VArr [VStr "./src/utils/*"])])])]
  in
  run (readConfig (Sample.js_project config) config "/app/jsconfig.json") =
  (Ok (VObj [("compilerOptions",
              VObj [("paths",
                     VObj [("utils/*", VArr [VStr "./src/utils/*"]);
                           ("utils", VStr "/app/src/utils")])]);
             ("extends", VObj [])]),
   []).
Proof. reflexivity. Qed.

(** ** [configPathsRaw]: the merge of the two [paths] objects *)

Section Merge.

Lemma get_truthy (c : value) (k : string) :
  truthy c = true -> get c k = Ok (get_own c k).
Proof. destruct c; simpl; intros; try discriminate; reflexivity. Qed.

Lemma get_own_paths_falsy (v : value) :
  truthy v = false -> get_own v "paths" = VUndefined.
Proof. destruct v; simpl; intros; try discriminate; reflexivity. Qed.

Lemma paths_or_empty_spec (c : value) :
  truthy c = true ->
  paths_or_empty c = Ok (or_empty (declared_paths c)).
Proof.
  intros Hc. unfold paths_or_empty, declared_paths, or_empty.
  rewrite (get_truthy c _ Hc). cbn [bind].
  destruct (truthy (get_own c "compilerOptions")) eqn:Hco.
  - rewrite (get_truthy _ "paths" Hco). cbn [bind].
    destruct (truthy (get_own (get_own c "compilerOptions") "paths"));
      reflexivity.
  - rewrite (get_own_paths_falsy _ Hco). reflexivity.
Qed.

Lemma is_object_or_empty (v : value) :
  negb (is_object_type (or_empty v)) = rejected_paths v.
Proof.
  unfold or_empty, rejected_paths. destruct (truthy v); reflexivity.
Qed.

Lemma js_or_truthy (a : value) : truthy (js_or a (VObj [])) = true.
Proof. unfold js_or. destruct (truthy a) eqn:E; [exact E | reflexivity]. Qed.

(** [configPathsRaw] on an object, by the two declared [paths] values. *)
Lemma configPathsRaw_spec (c : props) :
  configPathsRaw (VObj c) =
  let own := declared_paths (VObj c) in
  let inherited :=
    declared_paths (js_or (get_own (VObj c) "extends") (VObj [])) in
  if rejected_paths own then Throw (InvalidPathsError OwnPaths)
  else if rejected_paths inherited
       then Throw (InvalidPathsError InheritedPaths)
       else Ok (VObj (spread (spread [] (or_empty own))
                        (or_empty inherited))).
Proof.
  unfold configPathsRaw.
  rewrite (paths_or_empty_spec (VObj c) eq_refl). cbn [bind get].
  rewrite (paths_or_empty_spec _ (js_or_truthy _)). cbn [bind].
  rewrite !is_object_or_empty. reflexivity.
Qed.

Lemma lookup_extendedConfig (c : props) (parent : value) (k : string) :
  lookup k (assign (spread [] (VObj c)) "extends" parent) =
  if String.eqb k "extends" then Some parent else lookup k c.
Proof.
  rewrite lookup_assign by reflexivity. rewrite lookup_spread_obj.
  destruct (String.eqb k "extends"); [reflexivity|].
  destruct (lookup k c); reflexivity.
Qed.

Lemma declared_paths_extendedConfig (c : props) (parent : value) :
  declared_paths (extendedConfig (VObj c) parent) = declared_paths (VObj c).
Proof.
  unfold declared_paths, extendedConfig. cbn [get_own].
  rewrite lookup_extendedConfig. reflexivity.
Qed.

Lemma extends_extendedConfig (c : props) (parent : value) :
  get_own (extendedConfig (VObj c) parent) "extends" = parent.
Proof.
  unfold extendedConfig. cbn [get_own]. rewrite lookup_extendedConfig.
  reflexivity.
Qed.

Lemma declared_paths_lookup (c co : props) (p : value) :
  lookup "compilerOptions" c = Some (VObj co) ->
  lookup "paths" co = Some p ->
  declared_paths (VObj c) = p.
Proof.
  intros H1 H2. unfold declared_paths. cbn [get_own]. rewrite H1.
  cbn [get_own]. rewrite H2. reflexivity.
Qed.

End Merge.

(** C5.  For a child config and the parent config that [readConfig] has
    put under [extends], [configPathsRaw] returns the child's [paths]
    entries overlaid with the parent's: a key present in both maps to the
    parent's value, and every other key keeps the value of the one that has
    it. *)
Theorem configPathsRaw_parent_wins (conf co cp par pco pp : props) :
  lookup "compilerOptions" conf = Some (VObj co) ->
  lookup "paths" co = Some (VObj cp) ->
  lookup "compilerOptions" par = Some (VObj pco) ->
  lookup "paths" pco = Some (VObj pp) ->
  exists merged,
    configPathsRaw (extendedConfig (VObj conf) (VObj par)) = Ok (VObj merged)
    /\ merged = spread (spread [] (VObj cp)) (VObj pp)
    /\ (forall k vc vp,
          lookup k cp = Some vc -> lookup k pp = Some vp ->
          lookup k merged = Some vp)
    /\ (forall k,
          lookup k merged =
          match lookup k pp with
          | Some v => Some v
          | None => lookup k cp
          end).
Proof.
  intros Hco Hcp Hpco Hpp.
  exists (spread (spread [] (VObj cp)) (VObj pp)).
  assert (Hall : forall k,
    lookup k (spread (spread [] (VObj cp)) (VObj pp)) =
    match lookup k pp with
    | Some v => Some v
    | None => lookup k cp
    end).
  { intros k. rewrite !lookup_spread_obj.
    destruct (lookup k pp); [reflexivity|].
    destruct (lookup k cp); reflexivity. }
  split; [|split; [reflexivity | split; [|exact Hall]]].
  - unfold extendedConfig at 1. rewrite configPathsRaw_spec.
    fold (extendedConfig (VObj conf) (VObj par)).
    rewrite declared_paths_extendedConfig, extends_extendedConfig.
    rewrite (declared_paths_lookup _ _ _ Hco Hcp).
    change (js_or (VObj par) (VObj [])) with (VObj par).
    rewrite (declared_paths_lookup _ _ _ Hpco Hpp).
    reflexivity.
  - intros k vc vp _ Hvp. rewrite Hall, Hvp. reflexivity.
Qed.

(** Child and parent both map [utils/*]; only the child maps
    [components/*]. *)
Lemma configPathsRaw_parent_wins_witness :
  configPathsRaw
    (extendedConfig Sample.child Sample.base) =
  Ok (VObj [("utils/*", VArr [VStr "./base/utils/*"]);
            ("components/*", VArr [VStr "./src/components/*"])]).
Proof.
  destruct (configPathsRaw_parent_wins
              [("extends", VStr "./base.json");
               ("compilerOptions",
                VObj [("baseUrl", VStr "src");
                      ("paths",
                       VObj [("utils/*", VArr [VStr "./src/utils/*"]);
                             ("components/*",
                              VArr [VStr "./src/components/*"])])])]
              [("baseUrl", VStr "src");
               ("paths",
                VObj [("utils/*", VArr [VStr "./src/utils/*"]);
                      ("components/*", VArr [VStr "./src/components/*"])])]
              [("utils/*", VArr [VStr "./src/utils/*"]);
               ("components/*", VArr [VStr "./src/components/*"])]
              [("compilerOptions",
                VObj [("paths",
                       VObj [("utils/*", VArr [VStr "./base/utils/*"])])])]
              [("paths", VObj [("utils/*", VArr [VStr "./base/utils/*"])])]
              [("utils/*", VArr [VStr "./base/utils/*"])]
              eq_refl eq_refl eq_refl eq_refl)
    as (merged & Hm & -> & _).
  exact Hm.
Defined.

(** ** [readConfig]: what it raises *)

Section ReadConfig.

Variable h : host.

Lemma resolve_args_throws (rev_args : list value) (acc : string) (e : exn) :
  Path.resolve_args (cwd h) rev_args acc = Throw e -> e = TypeError.
Proof.
  revert acc. induction rev_args as [|v rest IH]; intros acc; simpl.
  - destruct (String.eqb (cwd h) ""); discriminate.
  - destruct v; try congruence.
    destruct (String.eqb s ""); [apply IH|].
    destruct (Path.starts_with_slash s); [discriminate | apply IH].
Qed.

Lemma resolve_throws (args : list value) (e : exn) :
  Path.resolve (cwd h) args = Throw e -> e = TypeError.
Proof.
  unfold Path.resolve.
  destruct (Path.resolve_args (cwd h) (rev args) "") as [[p a]|e'] eqn:E;
    cbn [bind]; [discriminate|].
  intros [= <-]. eapply resolve_args_throws. exact E.
Qed.

Lemma alias_step_throws (pathsRaw : value) (a : props) (k : string)
  (e : exn) :
  alias_step h pathsRaw a k = Throw e -> e = TypeError.
Proof.
  unfold alias_step.
  destruct (replace_glob _) as [t|e'] eqn:Et; cbn [bind].
  - destruct (Path.resolve _ _) as [r|e'] eqn:Er; cbn [bind];
      [discriminate|].
    intros [= <-]. eapply resolve_throws. exact Er.
  - intros [= <-]. unfold replace_glob in Et.
    destruct (target_of (get_own pathsRaw k)); congruence.
Qed.

Lemma reduce_throws (f : props -> string -> result props)
  (keys : list string) (a : props) (e : exn) :
  (forall a' k e', f a' k = Throw e' -> e' = TypeError) ->
  reduce f keys a = Throw e -> e = TypeError.
Proof.
  intros Hf. revert a. induction keys as [|k keys IH]; intros a; simpl;
    [discriminate|].
  destruct (f a k) as [a'|e'] eqn:E; cbn [bind].
  - apply IH.
  - intros [= <-]. eapply Hf. exact E.
Qed.

Lemma aliasMap_throws (pathsRaw : value) (e : exn) :
  aliasMap h pathsRaw = Throw e -> e = TypeError.
Proof. apply reduce_throws. apply alias_step_throws. Qed.

Lemma get_throws (v : value) (k : string) (e : exn) :
  get v k = Throw e -> e = TypeError.
Proof. destruct v; simpl; congruence. Qed.

(** After [configPathsRaw], all [resolvedConfig] can raise is a
    [TypeError]. *)
Lemma resolvedConfig_throws (config : value) (e : exn) :
  resolvedConfig h config = Throw e ->
  configPathsRaw config = Throw e \/ e = TypeError.
Proof.
  unfold resolvedConfig.
  destruct (configPathsRaw config) as [pathsRaw|e1]; cbn [bind]; [|auto].
  destruct (aliasMap h pathsRaw) as [al|e2] eqn:Ea; cbn [bind].
  - destruct (get config "compilerOptions") as [co|e3] eqn:Ec; cbn [bind].
    + destruct (get co "paths") as [p|e4] eqn:Ep; cbn [bind];
        [discriminate|].
      intros [= <-]. right. eapply get_throws. exact Ep.
    + intros [= <-]. right. eapply get_throws. exact Ec.
  - intros [= <-]. right. eapply aliasMap_throws. exact Ea.
Qed.

Lemma resolvedConfig_rejects (config : value) (e : exn) :
  configPathsRaw config = Throw e -> resolvedConfig h config = Throw e.
Proof. intros H. unfold resolvedConfig. rewrite H. reflexivity. Qed.

(** Once the parent is loaded, [readConfig] is [resolvedConfig] on the
    copy of the child that holds the parent under [extends]; the load is
    its only host call. *)
Lemma readConfig_loaded (conf : value) (file : string) (t : list event)
  (extPath : string) (parent : value) :
  truthy conf = true ->
  loads_parent h file (get_own conf "extends") extPath parent ->
  readConfig h conf file t =
  (resolvedConfig h (extendedConfig conf parent),
   (t ++ [Require extPath])%list).
Proof.
  intros Hc (Hext & (confdir & Hdir & Hres) & Hreq).
  unfold readConfig. rewrite Hc. cbn [negb].
  unfold mbind, lift, call. rewrite Hdir, (get_truthy conf _ Hc), Hext, Hres.
  rewrite Hreq. reflexivity.
Qed.

End ReadConfig.

(** C8, as the code has it.  With the parent loaded, [readConfig] fails
    with the invalid-paths error, and returns no config, exactly when one of
    the two [compilerOptions.paths] values is rejected: truthy and not of
    type object, that is a non-empty string, a non-zero number or [true];
    the child's value is checked first.  A falsy value counts as absent and
    an array has type object: neither raises the error, nor do two objects. *)
Theorem readConfig_invalid_paths (h : host) (conf : props) (file : string)
  (t : list event) (extPath : string) (parent : value) :
  loads_parent h file (get_own (VObj conf) "extends") extPath parent ->
  (rejected_paths (declared_paths (VObj conf)) = true ->
   readConfig h (VObj conf) file t =
   (Throw (InvalidPathsError OwnPaths), (t ++ [Require extPath])%list)) /\
  (rejected_paths (declared_paths (VObj conf)) = false ->
   rejected_paths (declared_paths (js_or parent (VObj []))) = true ->
   readConfig h (VObj conf) file t =
   (Throw (InvalidPathsError InheritedPaths), (t ++ [Require extPath])%list))
  /\
  (rejected_paths (declared_paths (VObj conf)) = false ->
   rejected_paths (declared_paths (js_or parent (VObj []))) = false ->
   forall site,
     fst (readConfig h (VObj conf) file t) <> Throw (InvalidPathsError site))
  /\
  (forall v,
     rejected_paths v = true <->
     (exists s, v = VStr s /\ s <> "") \/ (exists n, v = VNum n /\ n <> 0%Z)
     \/ v = VBool true).
Proof.
  intros Hload.
  rewrite (readConfig_loaded h (VObj conf) file t extPath parent eq_refl Hload).
  assert (Hraw :
    configPathsRaw (extendedConfig (VObj conf) parent) =
    if rejected_paths (declared_paths (VObj conf))
    then Throw (InvalidPathsError OwnPaths)
    else if rejected_paths (declared_paths (js_or parent (VObj [])))
         then Throw (InvalidPathsError InheritedPaths)
         else Ok (VObj (spread
                          (spread [] (or_empty (declared_paths (VObj conf))))
                          (or_empty
                             (declared_paths (js_or parent (VObj []))))))).
  { unfold extendedConfig at 1. rewrite configPathsRaw_spec.
    fold (extendedConfig (VObj conf) parent).
    rewrite declared_paths_extendedConfig, extends_extendedConfig.
    reflexivity. }
  split; [|split; [|split]].
  - intros Hown. rewrite Hown in Hraw.
    rewrite (resolvedConfig_rejects h _ _ Hraw). reflexivity.
  - intros Hown Hinh. rewrite Hown, Hinh in Hraw.
    rewrite (resolvedConfig_rejects h _ _ Hraw). reflexivity.
  - intros Hown Hinh site Hthrow. rewrite Hown, Hinh in Hraw.
    cbn [fst] in Hthrow.
    apply resolvedConfig_throws in Hthrow.
    destruct Hthrow as [H | H]; [rewrite Hraw in H|]; discriminate.
  - intros v. unfold rejected_paths. split.
    + destruct v; simpl; try discriminate.
      * destruct b; [auto | discriminate].
      * destruct (Z.eqb_spec n 0); [discriminate|]. eauto.
      * destruct (String.eqb_spec s ""); [discriminate|]. eauto.
    + intros [(s & -> & Hs) | [(n & -> & Hn) | ->]]; simpl.
      * destruct (String.eqb_spec s ""); [contradiction | reflexivity].
      * destruct (Z.eqb_spec n 0); [contradiction | reflexivity].
      * reflexivity.
Qed.

(** A child whose [paths] is a string, next to a well-formed pair. *)
Lemma readConfig_invalid_paths_witness :
  let h := Sample.js_project Sample.child in
  run (readConfig h
         (VObj [("extends", VStr "./base.json");
                ("compilerOptions", VObj [("paths", VStr "src")])])
         "/app/jsconfig.json") =
  (Throw (InvalidPathsError OwnPaths), [Require "/app/base.json"]) /\
  fst (run (readConfig h Sample.child "/app/jsconfig.json")) <>
  Throw (InvalidPathsError OwnPaths) /\
  fst (run (readConfig h Sample.child "/app/jsconfig.json")) <>
  Throw (InvalidPathsError InheritedPaths).
Proof.
  intros h.
  assert (Hload : forall c,
    get_own (VObj c) "extends" = VStr "./base.json" ->
    loads_parent h "/app/jsconfig.json" (get_own (VObj c) "extends")
      "/app/base.json" Sample.base).
  { intros c ->. split; [reflexivity|]. split; [|reflexivity].
    exists "/app". split; reflexivity. }
  destruct (readConfig_invalid_paths h
              [("extends", VStr "./base.json");
               ("compilerOptions", VObj [("paths", VStr "src")])]
              "/app/jsconfig.json" [] "/app/base.json" Sample.base)
    as (Hown & _); [apply Hload; reflexivity|].
  destruct (readConfig_invalid_paths h
              [("extends", VStr "./base.json");
               ("compilerOptions",
                VObj [("baseUrl", VStr "src");
                      ("paths",
                       VObj [("utils/*", VArr [VStr "./src/utils/*"]);
                             ("components/*",
                              VArr [VStr "./src/components/*"])])])]
              "/app/jsconfig.json" [] "/app/base.json" Sample.base)
    as (_ & _ & Hnone & _); [apply Hload; reflexivity|].
  split; [exact (Hown eq_refl)|].
  split; exact (Hnone eq_refl eq_refl _).
Defined.

(** Against C8 as worded: a [paths] value that is present and is not a
    mapping, an array in the first config and [false] in the second, raises
    no invalid-paths error; [readConfig] returns a config. *)
Lemma readConfig_accepts_non_mapping_paths :
  let h := Sample.js_project Sample.child in
  let withPaths p :=
    VObj [("extends", VStr "./base.json");
          ("compilerOptions", VObj [("paths", p)])] in
  declared_paths (withPaths (VArr [VStr "./src/*"])) = VArr [VStr "./src/*"]
  /\ run (readConfig h (withPaths (VArr [VStr "./src/*"]))
            "/app/jsconfig.json") =
     (Ok (VObj [("extends", Sample.base);
                ("compilerOptions",
                 VObj [("paths",
                        VObj [("0", VStr "/app/src");
                              ("utils", VStr "/app/base/utils")])])]),
      [Require "/app/base.json"])
  /\ declared_paths (withPaths (VBool false)) = VBool false
  /\ run (readConfig h (withPaths (VBool false)) "/app/jsconfig.json") =
     (Ok (VObj [("extends", Sample.base);
                ("compilerOptions",
                 VObj [("paths",
                        VObj [("utils", VStr "/app/base/utils")])])]),
      [Require "/app/base.json"]).
Proof. repeat split. Qed.

(** ** [aliasMap]: from merged paths to aliases *)

Section Aliases.

Variable h : host.

Lemma reduce_app (f : props -> string -> result props)
  (l1 l2 : list string) (a : props) :
  reduce f (l1 ++ l2)%list a =
  (let* a' := reduce f l1 a in reduce f l2 a').
Proof.
  revert a. induction l1 as [|k l1 IH]; intros a; simpl; [reflexivity|].
  destruct (f a k) as [a'|e]; cbn [bind]; [apply IH | reflexivity].
Qed.

(** A key whose target is a string adds (or overwrites) one alias. *)
Lemma alias_step_string (pathsRaw : value) (a : props) (k s : string) :
  target_of (get_own pathsRaw k) = VStr s ->
  exists r,
    Path.resolve (cwd h) [VStr (appPath (paths h)); VStr (strip_glob s)]
    = Ok r /\
    alias_step h pathsRaw a k = Ok (assign a (strip_glob k) (VStr r)).
Proof.
  intros Ht.
  destruct (resolve_total h (appPath (paths h)) (strip_glob s)) as [r Hr].
  exists r. split; [exact Hr|].
  unfold alias_step. rewrite Ht. cbn [replace_glob bind]. rewrite Hr.
  reflexivity.
Qed.

Lemma reduce_alias_total (pathsRaw : value) (keys : list string)
  (a : props) :
  (forall k, In k keys -> exists s, target_of (get_own pathsRaw k) = VStr s) ->
  exists a', reduce (alias_step h pathsRaw) keys a = Ok a'.
Proof.
  revert a. induction keys as [|k keys IH]; intros a Hk; simpl; [eauto|].
  destruct (Hk k (or_introl eq_refl)) as [s Hs].
  destruct (alias_step_string pathsRaw a k s Hs) as (r & _ & ->).
  cbn [bind]. apply IH. intros k' Hin. apply Hk. right. exact Hin.
Qed.

(** Later keys with other aliases leave an alias alone. *)
Lemma reduce_alias_keeps (pathsRaw : value) (keys : list string)
  (a a' : props) (key : string) :
  (forall k, In k keys -> strip_glob k <> key) ->
  reduce (alias_step h pathsRaw) keys a = Ok a' ->
  lookup key a' = lookup key a.
Proof.
  revert a. induction keys as [|k keys IH]; intros a Hk; simpl.
  - intros [= <-]. reflexivity.
  - destruct (alias_step h pathsRaw a k) as [a1|e] eqn:E; cbn [bind];
      [|discriminate].
    intros Hred. rewrite (IH a1); [|intros; apply Hk; right; assumption
                                   |exact Hred].
    unfold alias_step in E.
    destruct (replace_glob _) as [t|]; cbn [bind] in E; [|discriminate].
    destruct (Path.resolve _ _) as [r|]; cbn [bind] in E; [|discriminate].
    injection E as <-. apply lookup_assign_other.
    apply String.eqb_neq. intros Heq. apply (Hk k (or_introl eq_refl)).
    symmetry. exact Heq.
Qed.

Lemma string_neq_eqb (a b : string) : a <> b -> String.eqb a b = false.
Proof. apply String.eqb_neq. Qed.

End Aliases.

(** C7, as the code has it.  Let every value of the merged paths object
    be a string or an array that starts with a string.  Then [aliasMap]
    returns an object, and for every key that is the last one, in the order
    of the object's keys, to give its alias key (so in particular when no
    two keys give the same one) and whose alias key is not [__proto__], the
    alias key, which is the key without one trailing [/*], maps to the first
    element of the key's array without its trailing [/*], resolved against
    the project root. *)
Theorem aliasMap_entry (h : host) (merged : props) (k s : string)
  (rest : list value) :
  (forall k', In k' (map fst merged) ->
     exists s', target_of (get_own (VObj merged) k') = VStr s') ->
  lookup k merged = Some (VArr (VStr s :: rest)) ->
  last_for_alias (map fst merged) k ->
  strip_glob k <> "__proto__" ->
  exists aliases r,
    aliasMap h (VObj merged) = Ok aliases /\
    Path.resolve (cwd h) [VStr (appPath (paths h)); VStr (strip_glob s)]
    = Ok r /\
    lookup (strip_glob k) aliases = Some (VStr r).
Proof.
  intros Hstr Hk (before & after & Hkeys & Hlast) Hproto.
  unfold aliasMap. cbn [own_keys]. rewrite Hkeys, reduce_app.
  destruct (reduce_alias_total h (VObj merged) before []) as [a1 Ha1].
  { intros k' Hin. apply Hstr. rewrite Hkeys. apply in_or_app. auto. }
  rewrite Ha1. cbn [bind reduce].
  assert (Ht : target_of (get_own (VObj merged) k) = VStr s).
  { cbn [get_own]. rewrite Hk. reflexivity. }
  destruct (alias_step_string h (VObj merged) a1 k s Ht) as (r & Hr & ->).
  cbn [bind].
  destruct (reduce_alias_total h (VObj merged) after
              (assign a1 (strip_glob k) (VStr r))) as [a2 Ha2].
  { intros k' Hin. apply Hstr. rewrite Hkeys. apply in_or_app.
    right. right. exact Hin. }
  exists a2, r. split; [exact Ha2 | split; [exact Hr|]].
  rewrite (reduce_alias_keeps h _ _ _ _ (strip_glob k) Hlast Ha2).
  rewrite lookup_assign by (apply string_neq_eqb; exact Hproto).
  rewrite String.eqb_refl. reflexivity.
Qed.

(** The example of the spec: [components/*] mapped to
    [["./src/components/*"]] in the project at [/app]. *)
Lemma aliasMap_entry_witness :
  let h := Sample.js_project Sample.child in
  exists aliases,
    aliasMap h
      (VObj [("utils/*", VArr [VStr "./base/utils/*"]);
             ("components/*", VArr [VStr "./src/components/*"])])
    = Ok aliases /\
    lookup "components" aliases = Some (VStr "/app/src/components").
Proof.
  intros h.
  destruct (aliasMap_entry h
              [("utils/*", VArr [VStr "./base/utils/*"]);
               ("components/*", VArr [VStr "./src/components/*"])]
              "components/*" "./src/components/*" [])
    as (aliases & r & Ha & Hr & Hl).
  - intros k' [<- | [<- | []]]; eexists; reflexivity.
  - reflexivity.
  - exists ["utils/*"], []. split; [reflexivity | intros k' []].
  - discriminate.
  - exists aliases. split; [exact Ha|].
    assert (Hr' : Ok r = Ok "/app/src/components")
      by (rewrite <- Hr; reflexivity).
    apply Ok_inj in Hr'. subst r. exact Hl.
Defined.

(** Against C7 as worded.  Two keys with one alias key: the bare key
    [@lib] and the pattern [@lib/*] both become [@lib]; the later one
    wins, and the alias map has no entry for the target of the first.  A key
    with an empty array of paths stops the whole merge with a [TypeError].
    A key that becomes [__proto__] leaves no entry at all. *)
Lemma aliasMap_collision :
  let h := Sample.js_project Sample.child in
  let merged :=
    VObj [("@lib", VArr [VStr "./lib/index"]);
          ("@lib/*", VArr [VStr "./lib/src/*"])] in
  (get_own merged "@lib" = VArr [VStr "./lib/index"] /\
   strip_glob "@lib" = "@lib" /\
   Path.resolve (cwd h) [VStr (appPath (paths h));
                         VStr (strip_glob "./lib/index")]
   = Ok "/app/lib/index" /\
   aliasMap h merged = Ok [("@lib", VStr "/app/lib/src")] /\
   lookup "@lib" [("@lib", VStr "/app/lib/src")]
   <> Some (VStr "/app/lib/index")) /\
  aliasMap h (VObj [("legacy/*", VArr [])]) = Throw TypeError /\
  aliasMap h (VObj [("__proto__/*", VArr [VStr "./x/*"])]) = Ok [].
Proof. repeat split. discriminate. Qed.

(** The same example through [readConfig]: the config it returns for the
    child and parent of the example project. *)
Example readConfig_example :
  run (readConfig (Sample.js_project Sample.child) Sample.child
         "/app/jsconfig.json") =
  (Ok (VObj
         [("extends", Sample.base);
          ("compilerOptions",
           VObj [("baseUrl", VStr "src");
                 ("paths",
                  VObj [("utils/*", VArr [VStr "./src/utils/*"]);
                        ("components/*", VArr [VStr "./src/components/*"]);
                        ("utils", VStr "/app/base/utils");
                        ("components", VStr "/app/src/components")])])]),
   [Require "/app/base.json"]).
Proof. reflexivity. Qed.

(** ** [getWebpackAliases] *)

Section WebpackAliases.

Variable h : host.


(** Without a [baseUrl] the supplied table is returned as it is, and the
    empty object when there is none. *)
Lemma getWebpackAliases_without_baseUrl (o : props) :
  truthy (get_own (VObj o) "baseUrl") = false ->
  getWebpackAliases h (VObj o) =
  Ok (or_empty (get_own (VObj o) "paths")).
Proof.
  intros Hf. unfold getWebpackAliases, or_empty.
  cbn [default_arg get bind]. rewrite Hf. cbn [negb andb].
  destruct (truthy (get_own (VObj o) "paths")); reflexivity.
Qed.

(** With a [baseUrl], the root it is resolved against is the [appPath]
    property of the supplied table; when that is not a string, a
    [TypeError] stops the call. *)
Lemma getWebpackAliases_no_appPath (o : props) :
  truthy (get_own (VObj o) "baseUrl") = true ->
  (forall s, get_own (get_own (VObj o) "paths") "appPath" <> VStr s) ->
  getWebpackAliases h (VObj o) = Throw TypeError.
Proof.
  intros Ht Hs. unfold getWebpackAliases.
  cbn [default_arg get bind]. rewrite Ht. cbn [negb andb].
  destruct (get (get_own (VObj o) "paths") "appPath") as [root|e] eqn:Eg;
    cbn [bind]; [|f_equal; eapply get_throws; exact Eg].
  assert (Hroot : root = get_own (get_own (VObj o) "paths") "appPath").
  { destruct (get_own (VObj o) "paths"); try discriminate;
      apply Ok_inj in Eg; symmetry; exact Eg. }
  assert (Hrel : forall p, Path.relative (cwd h) root (VStr p)
                           = Throw TypeError).
  { intros p. destruct root; try reflexivity.
    exfalso. apply (Hs s). symmetry. exact Hroot. }
  destruct (Path.resolve (cwd h) [root; get_own (VObj o) "baseUrl"])
    as [resolved|e] eqn:Er; cbn [bind].
  - rewrite Hrel. reflexivity.
  - f_equal. eapply resolve_throws. exact Er.
Qed.


End WebpackAliases.

(** C3 against the code.  Scenario B of the spec, [baseUrl: "."] with the
    table [{"@app/*": ["src/app/*"]}]: the spec expects the table with
    [src] added; the call ends in a [TypeError] on every host, because
    line 76 reads [appPath] from the table.  The same happens without a
    table. *)
Theorem getWebpackAliases_root_baseUrl (h : host) :
  getWebpackAliases h
    (VObj [("baseUrl", VStr ".");
           ("paths", VObj [("@app/*", VArr [VStr "src/app/*"])])])
  = Throw TypeError /\
  getWebpackAliases h (VObj [("baseUrl", VStr ".")]) = Throw TypeError.
Proof.
  split; apply getWebpackAliases_no_appPath; try reflexivity;
    intros s; discriminate.
Qed.

(** The same defect seen from [getModules]: Scenario A of the spec, a
    [jsconfig.json] with [baseUrl: "src"] and no [paths], ends in the
    [TypeError] and not in a bundle. *)
Example getModules_scenario_A :
  run (getModules
         (Sample.js_project
            (VObj [("compilerOptions", VObj [("baseUrl", VStr "src")])]))) =
  (Throw TypeError,
   [ExistsSync "/app/tsconfig.json"; ExistsSync "/app/jsconfig.json";
    Require "/app/jsconfig.json"]).
Proof. reflexivity. Qed.




(** * Further properties of [modules.js] *)

(** ** The pattern suffix *)

(** X1.  The replacement of line 155 removes exactly one trailing [/*]: a
    string made of [s] and that suffix becomes [s] (even when [s] ends with
    the suffix itself), and a string that does not end with the suffix is
    left as it is. *)
Theorem strip_glob_suffix (s : string) :
  strip_glob (s ++ "/*") = s /\
  ((forall p, s <> p ++ "/*") -> strip_glob s = s).
Proof.
  split.
  - induction s as [|c s IH]; [reflexivity|].
    change (strip_glob (String c s ++ "/*"))
      with (if String.eqb (String c (s ++ "/*")) "/*" then ""
            else String c (strip_glob (s ++ "/*"))).
    rewrite IH.
    destruct (String.eqb_spec (String c (s ++ "/*")) "/*") as [E|_];
      [|reflexivity].
    exfalso. injection E as _ E. destruct s as [|a [|b s]]; discriminate.
  - induction s as [|c s IH]; intros Hs; [reflexivity|].
    change (strip_glob (String c s))
      with (if String.eqb (String c s) "/*" then ""
            else String c (strip_glob s)).
    destruct (String.eqb_spec (String c s) "/*") as [E|_].
    + exfalso. apply (Hs ""). exact E.
    + f_equal. apply IH. intros p Hp. apply (Hs (String c p)).
      rewrite Hp. reflexivity.
Qed.

Lemma strip_glob_suffix_witness :
  strip_glob ("@app/*" ++ "/*") = "@app/*" /\
  strip_glob "src/*.ts" = "src/*.ts".
Proof.
  split.
  - apply (strip_glob_suffix "@app/*").
  - apply (strip_glob_suffix "src/*.ts"). intros p Hp.
    do 9 (destruct p as [|? p]; [simpl in Hp; discriminate|]).
    simpl in Hp. discriminate.
Defined.

(** ** [aliasMap]: failure, range and plain targets *)

Section AliasFacts.

Variable h : host.

Lemma alias_step_not_string (pathsRaw : value) (a : props) (k : string) :
  (forall s, target_of (get_own pathsRaw k) <> VStr s) ->
  alias_step h pathsRaw a k = Throw TypeError.
Proof.
  intros Hs. unfold alias_step.
  destruct (target_of (get_own pathsRaw k)); try reflexivity.
  exfalso. eapply Hs. reflexivity.
Qed.

Lemma target_string_dec (pathsRaw : value) (k : string) :
  (exists s, target_of (get_own pathsRaw k) = VStr s) \/
  (forall s, target_of (get_own pathsRaw k) <> VStr s).
Proof.
  destruct (target_of (get_own pathsRaw k)); try (right; discriminate).
  left. eauto.
Qed.

Lemma reduce_alias_fails (pathsRaw : value) (keys : list string)
  (a : props) :
  (exists k, In k keys /\
             forall s, target_of (get_own pathsRaw k) <> VStr s) ->
  reduce (alias_step h pathsRaw) keys a = Throw TypeError.
Proof.
  revert a. induction keys as [|k0 keys IH]; intros a (k & Hin & Hk).
  - destruct Hin.
  - simpl. destruct (target_string_dec pathsRaw k0) as [[s Hs] | Hbad].
    + destruct (alias_step_string h pathsRaw a k0 s Hs) as (r & _ & ->).
      cbn [bind]. apply IH. exists k. split; [|exact Hk].
      destruct Hin as [<- | Hin]; [|exact Hin].
      exfalso. eapply Hk. exact Hs.
    + rewrite (alias_step_not_string _ _ _ Hbad). reflexivity.
Qed.

Lemma targets_dec (pathsRaw : value) (keys : list string) :
  (forall k, In k keys -> exists s, target_of (get_own pathsRaw k) = VStr s)
  \/ (exists k, In k keys /\
                forall s, target_of (get_own pathsRaw k) <> VStr s).
Proof.
  induction keys as [|k0 keys IH].
  - left. intros k [].
  - destruct (target_string_dec pathsRaw k0) as [Hs | Hbad].
    + destruct IH as [Hall | (k & Hin & Hk)].
      * left. intros k [<- | Hin]; auto.
      * right. exists k. split; [right|]; assumption.
    + right. exists k0. split; [left; reflexivity | exact Hbad].
Qed.

Lemma resolve_absolute (root b : string) :
  exists r, Path.resolve (cwd h) [VStr root; VStr b] = Ok r /\
            Path.starts_with_slash r = true.
Proof.
  destruct (PathFacts.resolve_strings (cwd h) [VStr root; VStr b]
              (cwd_absolute h) (PathFacts.all_strings_2 root b))
    as (ns & _ & E).
  exists (Path.render true ns). split; [exact E | reflexivity].
Qed.

Lemma reduce_alias_entries (pathsRaw : value) (all keys : list string)
  (a a' : props) :
  (forall k, In k keys -> In k all) ->
  alias_entries all a ->
  reduce (alias_step h pathsRaw) keys a = Ok a' ->
  alias_entries all a'.
Proof.
  revert a. induction keys as [|k0 keys IH]; intros a Hsub Ha; simpl.
  - intros [= <-]. exact Ha.
  - destruct (alias_step h pathsRaw a k0) as [a1|] eqn:E; cbn [bind];
      [|discriminate].
    apply IH; [intros; apply Hsub; right; assumption|].
    unfold alias_step in E.
    destruct (replace_glob _) as [t|]; cbn [bind] in E; [|discriminate].
    destruct (resolve_absolute (appPath (paths h)) t) as (r & Hr & Habs).
    rewrite Hr in E. cbn [bind] in E. apply Ok_inj in E. subst a1.
    intros k x Hl. unfold assign in Hl.
    destruct (String.eqb (strip_glob k0) "__proto__"); [apply Ha; exact Hl|].
    rewrite lookup_define in Hl.
    destruct (String.eqb_spec k (strip_glob k0)) as [-> | _];
      [|apply Ha; exact Hl].
    injection Hl as <-. exists k0, r.
    split; [apply Hsub; left; reflexivity | auto].
Qed.

(** The alias of the last key to give an alias key, for a target given as
    an array or as a plain string. *)
Lemma aliasMap_last_target (merged : props) (k s : string) :
  (forall k', In k' (map fst merged) ->
     exists s', target_of (get_own (VObj merged) k') = VStr s') ->
  target_of (get_own (VObj merged) k) = VStr s ->
  last_for_alias (map fst merged) k ->
  strip_glob k <> "__proto__" ->
  exists aliases r,
    aliasMap h (VObj merged) = Ok aliases /\
    Path.resolve (cwd h) [VStr (appPath (paths h)); VStr (strip_glob s)]
    = Ok r /\
    lookup (strip_glob k) aliases = Some (VStr r).
Proof.
  intros Hstr Ht (before & after & Hkeys & Hlast) Hproto.
  unfold aliasMap. cbn [own_keys]. rewrite Hkeys, reduce_app.
  destruct (reduce_alias_total h (VObj merged) before []) as [a1 Ha1].
  { intros k' Hin. apply Hstr. rewrite Hkeys. apply in_or_app. auto. }
  rewrite Ha1. cbn [bind reduce].
  destruct (alias_step_string h (VObj merged) a1 k s Ht) as (r & Hr & ->).
  cbn [bind].
  destruct (reduce_alias_total h (VObj merged) after
              (assign a1 (strip_glob k) (VStr r))) as [a2 Ha2].
  { intros k' Hin. apply Hstr. rewrite Hkeys. apply in_or_app.
    right. right. exact Hin. }
  exists a2, r. split; [exact Ha2 | split; [exact Hr|]].
  rewrite (reduce_alias_keeps h _ _ _ _ (strip_glob k) Hlast Ha2).
  rewrite lookup_assign by (apply string_neq_eqb; exact Hproto).
  rewrite String.eqb_refl. reflexivity.
Qed.

End AliasFacts.

(** X2.  [aliasMap] fails exactly when some key of the merged paths has a
    target that is not a string (an empty array, an array that starts with
    something else, a number, an object), and the failure is a
    [TypeError]; when every target is a string it returns an alias map. *)
Theorem aliasMap_fails_iff (h : host) (pathsRaw : value) :
  (aliasMap h pathsRaw = Throw TypeError <->
   exists k, In k (own_keys pathsRaw) /\
             forall s, target_of (get_own pathsRaw k) <> VStr s) /\
  (forall e, aliasMap h pathsRaw = Throw e -> e = TypeError) /\
  ((forall k, In k (own_keys pathsRaw) ->
      exists s, target_of (get_own pathsRaw k) = VStr s) ->
   exists aliases, aliasMap h pathsRaw = Ok aliases).
Proof.
  split; [|split].
  - split.
    + intros Hthrow.
      destruct (targets_dec pathsRaw (own_keys pathsRaw)) as [Hall | Hbad];
        [|exact Hbad].
      destruct (reduce_alias_total h pathsRaw (own_keys pathsRaw) [] Hall)
        as [a Ha].
      unfold aliasMap in Hthrow. rewrite Ha in Hthrow. discriminate.
    + apply reduce_alias_fails.
  - apply aliasMap_throws.
  - apply reduce_alias_total.
Qed.

Lemma aliasMap_fails_iff_witness :
  let h := Sample.js_project Sample.child in
  aliasMap h (VObj [("utils/*", VArr [VStr "./src/utils/*"]);
                    ("assets/*", VArr [])]) = Throw TypeError /\
  exists aliases,
    aliasMap h (VObj [("utils/*", VArr [VStr "./src/utils/*"])])
    = Ok aliases.
Proof.
  intros h. split.
  - apply (aliasMap_fails_iff h). exists "assets/*".
    split; [right; left; reflexivity | intros s; discriminate].
  - apply (aliasMap_fails_iff h).
    intros k [<- | []]. eexists. reflexivity.
Defined.

(** X3.  Every entry of the alias map that [aliasMap] returns comes from a
    key of the merged paths with its trailing [/*] removed, and its value
    is a string holding an absolute path. *)
Theorem aliasMap_range (h : host) (pathsRaw : value) (aliases : props)
  (k : string) (x : value) :
  aliasMap h pathsRaw = Ok aliases ->
  lookup k aliases = Some x ->
  exists k0 r,
    In k0 (own_keys pathsRaw) /\ k = strip_glob k0 /\ x = VStr r /\
    Path.starts_with_slash r = true.
Proof.
  intros Ha. revert k x.
  apply (reduce_alias_entries h pathsRaw (own_keys pathsRaw)
           (own_keys pathsRaw) [] aliases); [auto | | exact Ha].
  intros k x Hl. discriminate.
Qed.

Lemma aliasMap_range_witness :
  let h := Sample.js_project Sample.child in
  exists k0 r,
    In k0 ["utils/*"; "components/*"] /\ "components" = strip_glob k0 /\
    VStr "/app/src/components" = VStr r /\
    Path.starts_with_slash r = true.
Proof.
  intros h.
  apply (aliasMap_range h
           (VObj [("utils/*", VArr [VStr "./base/utils/*"]);
                  ("components/*", VArr [VStr "./src/components/*"])])
           [("utils", VStr "/app/base/utils");
            ("components", VStr "/app/src/components")]
           "components" (VStr "/app/src/components"));
    reflexivity.
Defined.

(** X4.  A paths entry whose value is a plain string instead of an array
    is used as the target itself: for the last key to give its alias key
    (not [__proto__]), in a paths object whose targets are all strings, the
    alias key maps to that string without its trailing [/*], resolved
    against the project root. *)
Theorem aliasMap_string_entry (h : host) (merged : props) (k s : string) :
  (forall k', In k' (map fst merged) ->
     exists s', target_of (get_own (VObj merged) k') = VStr s') ->
  lookup k merged = Some (VStr s) ->
  last_for_alias (map fst merged) k ->
  strip_glob k <> "__proto__" ->
  exists aliases r,
    aliasMap h (VObj merged) = Ok aliases /\
    Path.resolve (cwd h) [VStr (appPath (paths h)); VStr (strip_glob s)]
    = Ok r /\
    lookup (strip_glob k) aliases = Some (VStr r).
Proof.
  intros Hstr Hk. apply aliasMap_last_target; [exact Hstr|].
  cbn [get_own]. rewrite Hk. reflexivity.
Qed.

Lemma aliasMap_string_entry_witness :
  let h := Sample.js_project Sample.child in
  exists aliases,
    aliasMap h (VObj [("shared/*", VStr "../shared/src/*")]) = Ok aliases /\
    lookup "shared" aliases = Some (VStr "/shared/src").
Proof.
  intros h.
  destruct (aliasMap_string_entry h [("shared/*", VStr "../shared/src/*")]
              "shared/*" "../shared/src/*")
    as (aliases & r & Ha & Hr & Hl).
  - intros k' [<- | []]. eexists. reflexivity.
  - reflexivity.
  - exists [], []. split; [reflexivity | intros k' []].
  - discriminate.
  - exists aliases. split; [exact Ha|].
    assert (Hr' : Ok r = Ok "/shared/src") by (rewrite <- Hr; reflexivity).
    apply Ok_inj in Hr'. subst r. exact Hl.
Defined.

(** ** [readConfig]: the config it returns *)

Section ReadConfigFacts.

Variable h : host.

(** What a successful [resolvedConfig] is made of. *)
Lemma resolvedConfig_ok (config r : value) :
  resolvedConfig h config = Ok r ->
  exists pathsRaw aliases co ownPaths,
    configPathsRaw config = Ok pathsRaw /\
    aliasMap h pathsRaw = Ok aliases /\
    get config "compilerOptions" = Ok co /\
    get co "paths" = Ok ownPaths /\
    r = VObj (define (spread [] config) "compilerOptions"
                (VObj (define (spread [] co) "paths"
                         (VObj (spread (spread [] ownPaths)
                                  (VObj aliases)))))).
Proof.
  unfold resolvedConfig.
  destruct (configPathsRaw config) as [pathsRaw|] eqn:E1; cbn [bind];
    [|discriminate].
  destruct (aliasMap h pathsRaw) as [aliases|] eqn:E2; cbn [bind];
    [|discriminate].
  destruct (get config "compilerOptions") as [co|] eqn:E3; cbn [bind];
    [|discriminate].
  destruct (get co "paths") as [ownPaths|] eqn:E4; cbn [bind];
    [|discriminate].
  intros E. apply Ok_inj in E. subst r.
  exists pathsRaw, aliases, co, ownPaths. auto.
Qed.

Lemma dirname_string (file : string) :
  exists confdir, Path.dirname (VStr file) = Ok confdir.
Proof.
  destruct file as [|c0 tl]; simpl; [eauto|].
  destruct (Path.drop_while _ _) as [|c r3]; [eauto|].
  destruct r3; eauto.
Qed.

(** The top level of the config [readConfig] returns. *)
Lemma lookup_resolved (conf : props) (parent co' : value) (k : string) :
  lookup k (define (spread [] (extendedConfig (VObj conf) parent))
              "compilerOptions" co') =
  if String.eqb k "compilerOptions" then Some co'
  else if String.eqb k "extends" then Some parent
       else lookup k conf.
Proof.
  rewrite lookup_define. destruct (String.eqb k "compilerOptions");
    [reflexivity|].
  unfold extendedConfig. rewrite lookup_spread_obj, lookup_extendedConfig.
  destruct (String.eqb k "extends"); [reflexivity|].
  destruct (lookup k conf); reflexivity.
Qed.

Lemma get_extendedConfig (conf : props) (parent : value) (k : string) :
  k <> "extends" ->
  get (extendedConfig (VObj conf) parent) k = Ok (get_own (VObj conf) k).
Proof.
  intros Hk. unfold extendedConfig. cbn [get get_own].
  rewrite lookup_extendedConfig.
  rewrite (string_neq_eqb _ _ Hk). reflexivity.
Qed.

End ReadConfigFacts.

(** X5.  A child config with [extends] but without [compilerOptions]
    (absent or [null]) never gets a config back from [readConfig]: once the
    parent is loaded the call ends in the [TypeError] of line 164, or in
    the invalid-paths error for the parent's paths. *)
Theorem readConfig_without_compilerOptions (h : host) (conf : props)
  (file : string) (t : list event) (extPath : string) (parent : value) :
  loads_parent h file (get_own (VObj conf) "extends") extPath parent ->
  get_own (VObj conf) "compilerOptions" = VUndefined \/
  get_own (VObj conf) "compilerOptions" = VNull ->
  exists e,
    readConfig h (VObj conf) file t = (Throw e, (t ++ [Require extPath])%list)
    /\ (e = TypeError \/ e = InvalidPathsError InheritedPaths).
Proof.
  intros Hload Hco.
  rewrite (readConfig_loaded h (VObj conf) file t extPath parent eq_refl Hload).
  destruct (resolvedConfig h (extendedConfig (VObj conf) parent))
    as [r|e] eqn:E.
  - exfalso. apply resolvedConfig_ok in E.
    destruct E as (pathsRaw & aliases & co & ownPaths & _ & _ & Hg & Hp & _).
    rewrite get_extendedConfig in Hg by discriminate.
    apply Ok_inj in Hg. subst co.
    destruct Hco as [Hco | Hco]; rewrite Hco in Hp; discriminate.
  - exists e. split; [reflexivity|].
    destruct (resolvedConfig_throws h _ _ E) as [Hraw | ->]; [|auto].
    unfold extendedConfig in Hraw at 1. rewrite configPathsRaw_spec in Hraw.
    fold (extendedConfig (VObj conf) parent) in Hraw.
    rewrite declared_paths_extendedConfig in Hraw.
    assert (Hown : rejected_paths (declared_paths (VObj conf)) = false).
    { unfold declared_paths. destruct Hco as [-> | ->]; reflexivity. }
    cbv zeta in Hraw. rewrite Hown in Hraw.
    destruct (rejected_paths _); [|discriminate].
    right. congruence.
Qed.

(** [{ "extends": "./base.json" }] and nothing else. *)
Lemma readConfig_without_compilerOptions_witness :
  let h := Sample.js_project Sample.child in
  exists e,
    run (readConfig h (VObj [("extends", VStr "./base.json")])
           "/app/jsconfig.json") = (Throw e, [Require "/app/base.json"]) /\
    (e = TypeError \/ e = InvalidPathsError InheritedPaths).
Proof.
  intros h.
  apply (readConfig_without_compilerOptions h
           [("extends", VStr "./base.json")] "/app/jsconfig.json" []
           "/app/base.json" Sample.base).
  - split; [reflexivity|]. split; [|reflexivity].
    exists "/app". split; reflexivity.
  - left. reflexivity.
Defined.

Section ReadConfigShape.

Variable h : host.

Lemma get_ok (v x : value) (k : string) :
  get v k = Ok x -> x = get_own v k.
Proof. destruct v; simpl; intros E; try discriminate; congruence. Qed.

(** A successful [readConfig], piece by piece. *)
Lemma readConfig_ok (conf : props) (file : string) (t t' : list event)
  (extPath : string) (parent config' : value) :
  loads_parent h file (get_own (VObj conf) "extends") extPath parent ->
  readConfig h (VObj conf) file t = (Ok config', t') ->
  t' = (t ++ [Require extPath])%list /\
  exists pathsRaw aliases,
    configPathsRaw (extendedConfig (VObj conf) parent) = Ok pathsRaw /\
    aliasMap h pathsRaw = Ok aliases /\
    config' =
    VObj (define (spread [] (extendedConfig (VObj conf) parent))
            "compilerOptions"
            (VObj (define
                     (spread [] (get_own (VObj conf) "compilerOptions"))
                     "paths"
                     (VObj (spread (spread [] (declared_paths (VObj conf)))
                              (VObj aliases)))))).
Proof.
  intros Hload Hrun.
  rewrite (readConfig_loaded h (VObj conf) file t extPath parent eq_refl Hload)
    in Hrun.
  injection Hrun as Hres Ht. split; [symmetry; exact Ht|].
  apply resolvedConfig_ok in Hres.
  destruct Hres as (pathsRaw & aliases & co & ownPaths & H1 & H2 & Hg & Hp & ->).
  rewrite get_extendedConfig in Hg by discriminate.
  apply Ok_inj in Hg. subst co. apply get_ok in Hp. subst ownPaths.
  exists pathsRaw, aliases. auto.
Qed.

Lemma compilerOptions_resolved (conf : props) (parent co' : value) :
  get_own (VObj (define (spread [] (extendedConfig (VObj conf) parent))
                   "compilerOptions" co')) "compilerOptions" = co'.
Proof. cbn [get_own]. rewrite lookup_resolved. reflexivity. Qed.

Lemma get_own_define_other (o : props) (k k' : string) (v : value) :
  k' <> k -> get_own (VObj (define o k v)) k' = get_own (VObj o) k'.
Proof.
  intros Hk. cbn [get_own]. rewrite lookup_define.
  rewrite (string_neq_eqb _ _ Hk). reflexivity.
Qed.

Lemma get_own_spread_obj (o : props) (k : string) :
  get_own (VObj (spread [] (VObj o))) k = get_own (VObj o) k.
Proof.
  cbn [get_own]. rewrite lookup_spread_obj.
  destruct (lookup k o); reflexivity.
Qed.

End ReadConfigShape.

(** X6.  [readConfig] cannot be run again on its own result: the config it
    returns holds the loaded parent, an object, under [extends], and a
    second run (direct or through the guard of [getModules]) ends in the
    [TypeError] of [path.resolve] before any host call. *)
Theorem readConfig_twice (h : host) (conf : props) (file : string)
  (t t' : list event) (extPath : string) (parent config' : value) :
  loads_parent h file (get_own (VObj conf) "extends") extPath parent ->
  truthy parent = true ->
  (forall s, parent <> VStr s) ->
  readConfig h (VObj conf) file t = (Ok config', t') ->
  forall t2,
    readConfig h config' file t2 = (Throw TypeError, t2) /\
    resolveExtends h config' file t2 = (Throw TypeError, t2).
Proof.
  intros Hload Htruthy Hnot Hrun t2.
  destruct (readConfig_ok h conf file t t' extPath parent config' Hload Hrun)
    as (_ & pathsRaw & aliases & _ & _ & ->).
  destruct Hload as (_ & (confdir & Hdir & _) & _).
  assert (Hext : forall co', get (VObj (define
                   (spread [] (extendedConfig (VObj conf) parent))
                   "compilerOptions" co')) "extends" = Ok parent).
  { intros co'. cbn [get get_own]. rewrite lookup_resolved. reflexivity. }
  assert (Hagain : forall co' t0,
    readConfig h (VObj (define (spread [] (extendedConfig (VObj conf) parent))
                          "compilerOptions" co')) file t0
    = (Throw TypeError, t0)).
  { intros co' t0. unfold readConfig. cbn [truthy negb].
    unfold mbind, lift. rewrite Hdir, Hext, Htruthy.
    rewrite (resolve_not_string h _ _ Hnot). reflexivity. }
  split; [apply Hagain|].
  unfold resolveExtends, mbind, lift. rewrite Hext, Htruthy. apply Hagain.
Qed.

Lemma readConfig_twice_witness :
  let h := Sample.js_project Sample.child in
  exists config',
    run (readConfig h Sample.child "/app/jsconfig.json")
    = (Ok config', [Require "/app/base.json"]) /\
    readConfig h config' "/app/jsconfig.json" [Require "/app/base.json"]
    = (Throw TypeError, [Require "/app/base.json"]).
Proof.
  intros h. eexists. split; [reflexivity|].
  apply (readConfig_twice h
           [("extends", VStr "./base.json");
            ("compilerOptions",
             VObj [("baseUrl", VStr "src");
                   ("paths",
                    VObj [("utils/*", VArr [VStr "./src/utils/*"]);
                          ("components/*",
                           VArr [VStr "./src/components/*"])])])]
           "/app/jsconfig.json" [] [Require "/app/base.json"]
           "/app/base.json" Sample.base).
  - split; [reflexivity|]. split; [|reflexivity].
    exists "/app". split; reflexivity.
  - reflexivity.
  - intros s. discriminate.
  - reflexivity.
Defined.

(** X7.  The config [readConfig] returns has the loaded parent itself
    under [extends], every other top-level field of the child as it was,
    and, for a child whose [compilerOptions] is an object, every compiler
    option other than [paths] as it was; the load of the parent is the only
    host call. *)
Theorem readConfig_keeps_fields (h : host) (conf : props) (file : string)
  (t t' : list event) (extPath : string) (parent config' : value) :
  loads_parent h file (get_own (VObj conf) "extends") extPath parent ->
  readConfig h (VObj conf) file t = (Ok config', t') ->
  t' = (t ++ [Require extPath])%list /\
  get_own config' "extends" = parent /\
  (forall k, k <> "extends" -> k <> "compilerOptions" ->
             get_own config' k = get_own (VObj conf) k) /\
  (forall co k,
     get_own (VObj conf) "compilerOptions" = VObj co -> k <> "paths" ->
     get_own (get_own config' "compilerOptions") k = get_own (VObj co) k).
Proof.
  intros Hload Hrun.
  destruct (readConfig_ok h conf file t t' extPath parent config' Hload Hrun)
    as (Ht & pathsRaw & aliases & _ & _ & ->).
  split; [exact Ht|]. split; [|split].
  - cbn [get_own]. rewrite lookup_resolved. reflexivity.
  - intros k H1 H2. cbn [get_own]. rewrite lookup_resolved.
    rewrite (string_neq_eqb _ _ H2), (string_neq_eqb _ _ H1). reflexivity.
  - intros co k Hco Hk. rewrite compilerOptions_resolved, Hco.
    rewrite get_own_define_other by exact Hk.
    apply get_own_spread_obj.
Qed.

Lemma readConfig_keeps_fields_witness :
  let h := Sample.js_project Sample.child in
  let conf :=
    [("extends", VStr "./base.json");
     ("include", VArr [VStr "src"]);
     ("compilerOptions",
      VObj [("baseUrl", VStr "src");
            ("paths", VObj [("utils/*", VArr [VStr "./src/utils/*"])])])] in
  exists config',
    run (readConfig h (VObj conf) "/app/jsconfig.json")
    = (Ok config', [Require "/app/base.json"]) /\
    get_own config' "extends" = Sample.base /\
    get_own config' "include" = VArr [VStr "src"] /\
    get_own (get_own config' "compilerOptions") "baseUrl" = VStr "src".
Proof.
  intros h conf. eexists. split; [reflexivity|].
  match goal with
  | |- get_own ?c "extends" = _ /\ _ =>
      destruct (readConfig_keeps_fields h conf "/app/jsconfig.json" []
                  [Require "/app/base.json"] "/app/base.json" Sample.base c)
        as (_ & H1 & H2 & H3)
  end.
  - split; [reflexivity|]. split; [|reflexivity].
    exists "/app". split; reflexivity.
  - reflexivity.
  - split; [exact H1|]. split.
    + apply (H2 "include"); discriminate.
    + apply (H3 [("baseUrl", VStr "src");
                 ("paths",
                  VObj [("utils/*", VArr [VStr "./src/utils/*"])])]
               "baseUrl"); [reflexivity | discriminate].
Defined.

(** X8.  The [compilerOptions.paths] of the config [readConfig] returns
    is the child's own paths object overlaid with the alias map of the
    merged paths: every alias is there, and an own entry is kept unless an
    alias has its name. *)
Theorem readConfig_paths (h : host) (conf own : props) (file : string)
  (t t' : list event) (extPath : string) (parent config' : value) :
  loads_parent h file (get_own (VObj conf) "extends") extPath parent ->
  declared_paths (VObj conf) = VObj own ->
  readConfig h (VObj conf) file t = (Ok config', t') ->
  exists pathsRaw aliases resolved,
    configPathsRaw (extendedConfig (VObj conf) parent) = Ok pathsRaw /\
    aliasMap h pathsRaw = Ok aliases /\
    declared_paths config' = VObj resolved /\
    forall k,
      lookup k resolved =
      match lookup k aliases with
      | Some x => Some x
      | None => lookup k own
      end.
Proof.
  intros Hload Hown Hrun.
  destruct (readConfig_ok h conf file t t' extPath parent config' Hload Hrun)
    as (_ & pathsRaw & aliases & Hraw & Hal & ->).
  exists pathsRaw, aliases. eexists. split; [exact Hraw|].
  split; [exact Hal|]. split.
  - unfold declared_paths at 1. rewrite compilerOptions_resolved.
    cbn [get_own]. rewrite lookup_define. reflexivity.
  - intros k. rewrite Hown, !lookup_spread_obj.
    destruct (lookup k aliases); [reflexivity|].
    destruct (lookup k own); reflexivity.
Qed.

Lemma readConfig_paths_witness :
  let h := Sample.js_project Sample.child in
  exists config' resolved,
    run (readConfig h Sample.child "/app/jsconfig.json")
    = (Ok config', [Require "/app/base.json"]) /\
    declared_paths config' = VObj resolved /\
    lookup "utils/*" resolved = Some (VArr [VStr "./src/utils/*"]) /\
    lookup "utils" resolved = Some (VStr "/app/base/utils").
Proof.
  intros h.
  destruct (readConfig_paths h
              [("extends", VStr "./base.json");
               ("compilerOptions",
                VObj [("baseUrl", VStr "src");
                      ("paths",
                       VObj [("utils/*", VArr [VStr "./src/utils/*"]);
                             ("components/*",
                              VArr [VStr "./src/components/*"])])])]
              [("utils/*", VArr [VStr "./src/utils/*"]);
               ("components/*", VArr [VStr "./src/components/*"])]
              "/app/jsconfig.json" [] [Require "/app/base.json"]
              "/app/base.json" Sample.base
              (VObj
                 [("extends", Sample.base);
                  ("compilerOptions",
                   VObj [("baseUrl", VStr "src");
                         ("paths",
                          VObj [("utils/*", VArr [VStr "./src/utils/*"]);
                                ("components/*",
                                 VArr [VStr "./src/components/*"]);
                                ("utils", VStr "/app/base/utils");
                                ("components",
                                 VStr "/app/src/components")])])]))
    as (pathsRaw & aliases & resolved & Hraw & Hal & Hd & Hk).
  - split; [reflexivity|]. split; [|reflexivity].
    exists "/app". split; reflexivity.
  - reflexivity.
  - reflexivity.
  - eexists. exists resolved. split; [reflexivity|].
    split; [exact Hd|].
    assert (Ha : Ok aliases =
                 Ok [("utils", VStr "/app/base/utils");
                     ("components", VStr "/app/src/components")]).
    { rewrite <- Hal. apply Ok_inj in Hraw. rewrite <- Hraw. reflexivity. }
    apply Ok_inj in Ha. subst aliases.
    split; rewrite Hk; reflexivity.
Defined.

(** ** [readConfig]: the load of the parent *)

(** X9.  For a config whose [extends] is a non-empty string, [readConfig]
    asks the host for exactly one file, the one [extends] names relative to
    the directory of the config file, whatever that file holds (a parent's
    own [extends] is never followed); and when that load fails,
    [readConfig] fails with the loader's exception. *)
Theorem readConfig_requires_once (h : host) (conf : value)
  (file s : string) (t : list event) :
  truthy conf = true ->
  get_own conf "extends" = VStr s ->
  s <> "" ->
  exists confdir extPath,
    Path.dirname (VStr file) = Ok confdir /\
    Path.resolve (cwd h) [VStr confdir; VStr s] = Ok extPath /\
    snd (readConfig h conf file t) = (t ++ [Require extPath])%list /\
    (forall e, require h extPath = Throw e ->
               readConfig h conf file t
               = (Throw e, (t ++ [Require extPath])%list)).
Proof.
  intros Hc Hext Hs.
  destruct (dirname_string file) as [confdir Hdir].
  destruct (resolve_total h confdir s) as [extPath Hres].
  exists confdir, extPath. split; [exact Hdir|]. split; [exact Hres|].
  unfold readConfig. rewrite Hc. cbn [negb]. unfold mbind, lift, call.
  rewrite Hdir, (get_truthy conf _ Hc), Hext, (truthy_string s Hs), Hres.
  split.
  - destruct (require h extPath); reflexivity.
  - intros e ->. reflexivity.
Qed.

(** A parent that itself extends another file, and a parent that is not
    there. *)
Lemma readConfig_requires_once_witness :
  let chained :=
    VObj [("extends", VStr "./root.json");
          ("compilerOptions",
           VObj [("paths", VObj [("lib/*", VArr [VStr "./lib/*"])])])] in
  let h :=
    {| cwd := "/home/dev";
       cwd_absolute := eq_refl;
       paths := Sample.P;
       existsSync := fun f => String.eqb f "/app/jsconfig.json";
       require := fun f =>
         if String.eqb f "/app/base.json" then Ok chained
         else Throw (HostError f);
       typescript := Throw (HostError "no typescript") |} in
  snd (run (readConfig h Sample.child "/app/jsconfig.json"))
  = [Require "/app/base.json"] /\
  run (readConfig h
         (VObj [("extends", VStr "../missing.json")]) "/app/jsconfig.json")
  = (Throw (HostError "/missing.json"), [Require "/missing.json"]).
Proof.
  intros chained h. split.
  - destruct (readConfig_requires_once h Sample.child "/app/jsconfig.json"
                "./base.json" [] eq_refl eq_refl)
      as (confdir & extPath & Hd & Hr & Hs & _); [discriminate|].
    apply Ok_inj in Hd. subst confdir.
    apply Ok_inj in Hr. subst extPath. exact Hs.
  - destruct (readConfig_requires_once h
                (VObj [("extends", VStr "../missing.json")])
                "/app/jsconfig.json" "../missing.json" [] eq_refl eq_refl)
      as (confdir & extPath & Hd & Hr & _ & Hf); [discriminate|].
    apply Ok_inj in Hd. subst confdir.
    apply Ok_inj in Hr. subst extPath.
    apply (Hf (HostError "/missing.json")). reflexivity.
Defined.

(** X10.  The guard of lines 136-139 throws for every falsy [conf]
    without asking the host anything; and it cannot fire from
    [getModules], which only passes on a config with a truthy [extends]:
    such a value is always an object, and [readConfig] on it raises the
    no-config error only if the host's loader raises that very error. *)
Theorem readConfig_no_config (h : host) (conf : value) (file : string)
  (t : list event) :
  (truthy conf = false ->
   readConfig h conf file t = (Throw NoConfigError, t)) /\
  (forall e, get conf "extends" = Ok e -> truthy e = true ->
             (exists o, conf = VObj o) /\
             resolveExtends h conf file t = readConfig h conf file t /\
             (fst (readConfig h conf file t) = Throw NoConfigError ->
              exists extPath, require h extPath = Throw NoConfigError)).
Proof.
  split.
  - intros Hf. unfold readConfig. rewrite Hf. reflexivity.
  - intros e He Ht.
    assert (Hobj : exists o, conf = VObj o).
    { apply get_ok in He. subst e. destruct conf; try discriminate. eauto. }
    split; [exact Hobj|]. split.
    + unfold resolveExtends, mbind, lift. rewrite He, Ht. reflexivity.
    + destruct Hobj as [o ->].
      unfold readConfig. cbn [truthy negb].
      unfold mbind, lift, call. rewrite He, Ht.
      destruct (dirname_string file) as [confdir ->].
      destruct (Path.resolve (cwd h) [VStr confdir; e])
        as [extPath|e1] eqn:Er.
      * destruct (require h extPath) as [parent|e2] eqn:Eq.
        -- cbn [fst]. intros Hthrow.
           apply resolvedConfig_throws in Hthrow.
           destruct Hthrow as [Hraw | Habs]; [|discriminate].
           exfalso. unfold extendedConfig in Hraw.
           rewrite configPathsRaw_spec in Hraw. cbv zeta in Hraw.
           destruct (rejected_paths _); [discriminate|].
           destruct (rejected_paths _); discriminate.
        -- cbn [fst]. intros [= ->]. eauto.
      * cbn [fst]. intros [= ->]. apply resolve_throws in Er. discriminate.
Qed.

Lemma readConfig_no_config_witness :
  let h := Sample.js_project Sample.child in
  readConfig h VNull "/app/jsconfig.json" [] = (Throw NoConfigError, []) /\
  exists o, Sample.child = VObj o.
Proof.
  intros h. split.
  - apply (readConfig_no_config h VNull "/app/jsconfig.json" []).
    reflexivity.
  - destruct (readConfig_no_config h Sample.child "/app/jsconfig.json" [])
      as (_ & Hobj).
    destruct (Hobj (VStr "./base.json") eq_refl eq_refl) as (Ho & _).
    exact Ho.
Defined.

(** ** [getModules]: the bundle *)

Section Bundle.

Variable h : host.

Lemma default_arg_truthy (opts : value) :
  truthy opts = true -> default_arg opts (VObj []) = opts.
Proof. destruct opts; try discriminate; reflexivity. Qed.

(** The three results for options without a [baseUrl]. *)
Lemma results_without_baseUrl (opts : value) :
  truthy opts = true ->
  truthy (get_own opts "baseUrl") = false ->
  getAdditionalModulePaths h opts = Ok (VStr "") /\
  getWebpackAliases h opts = Ok (or_empty (get_own opts "paths")) /\
  getJestAliases h opts = Ok (VObj []).
Proof.
  intros Ht Hf.
  unfold getAdditionalModulePaths, getWebpackAliases, getJestAliases.
  rewrite (default_arg_truthy opts Ht), !(get_truthy opts _ Ht).
  cbn [bind]. rewrite Hf. cbn [negb andb]. unfold or_empty.
  destruct (truthy (get_own opts "paths")); auto.
Qed.

(** [getModules] from the loaded config on. *)
Lemma getModules_after_load (config co : value) (t : list event) :
  existsSync h (appTsConfig (paths h))
  && existsSync h (appJsConfig (paths h)) = false ->
  loadConfig h (existsSync h (appTsConfig (paths h)))
    (existsSync h (appJsConfig (paths h)))
    [ExistsSync (appTsConfig (paths h)); ExistsSync (appJsConfig (paths h))]
  = (Ok config, t) ->
  get (js_or config (VObj [])) "compilerOptions" = Ok co ->
  run (getModules h) =
  match getAdditionalModulePaths h (js_or co (VObj [])) with
  | Ok amp =>
      match getWebpackAliases h (js_or co (VObj [])) with
      | Ok wa =>
          match getJestAliases h (js_or co (VObj [])) with
          | Ok ja =>
              (Ok {| additionalModulePaths := amp;
                     webpackAliases := wa;
                     jestAliases := ja;
                     hasTsConfig := existsSync h (appTsConfig (paths h)) |},
               t)
          | Throw e => (Throw e, t)
          end
      | Throw e => (Throw e, t)
      end
  | Throw e => (Throw e, t)
  end.
Proof.
  intros Hboth Hload Hco.
  unfold run, getModules, mbind, call. cbn [app].
  rewrite Hboth, Hload. unfold lift. rewrite Hco. reflexivity.
Qed.

End Bundle.

(** X11.  In a project with neither [tsconfig.json] nor [jsconfig.json],
    [getModules] returns the bundle of the empty options: the empty string
    for the module paths, two empty alias objects and no TypeScript; the
    two existence checks are its only host calls. *)
Theorem getModules_no_config_file (h : host) :
  existsSync h (appTsConfig (paths h)) = false ->
  existsSync h (appJsConfig (paths h)) = false ->
  run (getModules h) =
  (Ok {| additionalModulePaths := VStr "";
         webpackAliases := VObj [];
         jestAliases := VObj [];
         hasTsConfig := false |},
   [ExistsSync (appTsConfig (paths h)); ExistsSync (appJsConfig (paths h))]).
Proof.
  intros Hts Hjs. unfold run, getModules, mbind, call. cbn [app].
  rewrite Hts, Hjs. reflexivity.
Qed.

Lemma getModules_no_config_file_witness :
  let h :=
    {| cwd := "/home/dev";
       cwd_absolute := eq_refl;
       paths := Sample.P;
       existsSync := fun _ => false;
       require := fun f => Throw (HostError f);
       typescript := Throw (HostError "no typescript") |} in
  run (getModules h) =
  (Ok {| additionalModulePaths := VStr "";
         webpackAliases := VObj [];
         jestAliases := VObj [];
         hasTsConfig := false |},
   [ExistsSync "/app/tsconfig.json"; ExistsSync "/app/jsconfig.json"]).
Proof.
  intros h. apply (getModules_no_config_file h); reflexivity.
Defined.

(** X12.  When the loaded config sets no [baseUrl] (absent or falsy),
    [getModules] returns a bundle: the empty string for the module paths,
    the [paths] value of the compiler options as the webpack aliases (the
    empty object when there is none), the empty object for the jest
    aliases, and whether [tsconfig.json] exists. *)
Theorem getModules_without_baseUrl (h : host) (config co : value)
  (t : list event) :
  existsSync h (appTsConfig (paths h))
  && existsSync h (appJsConfig (paths h)) = false ->
  loadConfig h (existsSync h (appTsConfig (paths h)))
    (existsSync h (appJsConfig (paths h)))
    [ExistsSync (appTsConfig (paths h)); ExistsSync (appJsConfig (paths h))]
  = (Ok config, t) ->
  get (js_or config (VObj [])) "compilerOptions" = Ok co ->
  truthy (get_own (js_or co (VObj [])) "baseUrl") = false ->
  run (getModules h) =
  (Ok {| additionalModulePaths := VStr "";
         webpackAliases := or_empty (get_own (js_or co (VObj [])) "paths");
         jestAliases := VObj [];
         hasTsConfig := existsSync h (appTsConfig (paths h)) |},
   t).
Proof.
  intros Hboth Hload Hco Hf.
  rewrite (getModules_after_load h config co t Hboth Hload Hco).
  destruct (results_without_baseUrl h (js_or co (VObj []))
              (js_or_truthy co) Hf) as (-> & -> & ->).
  reflexivity.
Qed.

(** A [jsconfig.json] that extends [base.json] and sets no [baseUrl]: the
    webpack aliases are the resolved paths. *)
Lemma getModules_without_baseUrl_witness :
  let jsconfig :=
    VObj [("extends", VStr "./base.json");
          ("compilerOptions",
           VObj [("paths",
                  VObj [("components/*",
                         VArr [VStr "./src/components/*"])])])] in
  run (getModules (Sample.js_project jsconfig)) =
  (Ok {| additionalModulePaths := VStr "";
         webpackAliases :=
           VObj [("components/*", VArr [VStr "./src/components/*"]);
                 ("components", VStr "/app/src/components");
                 ("utils", VStr "/app/base/utils")];
         jestAliases := VObj [];
         hasTsConfig := false |},
   [ExistsSync "/app/tsconfig.json"; ExistsSync "/app/jsconfig.json";
    Require "/app/jsconfig.json"; Require "/app/base.json"]).
Proof.
  intros jsconfig.
  exact (getModules_without_baseUrl (Sample.js_project jsconfig)
           (VObj [("extends", Sample.base);
                  ("compilerOptions",
                   VObj [("paths",
                          VObj [("components/*",
                                 VArr [VStr "./src/components/*"]);
                                ("components", VStr "/app/src/components");
                                ("utils", VStr "/app/base/utils")])])])
           (VObj [("paths",
                   VObj [("components/*", VArr [VStr "./src/components/*"]);
                         ("components", VStr "/app/src/components");
                         ("utils", VStr "/app/base/utils")])])
           [ExistsSync "/app/tsconfig.json"; ExistsSync "/app/jsconfig.json";
            Require "/app/jsconfig.json"; Require "/app/base.json"]
           eq_refl eq_refl eq_refl eq_refl).
Defined.

(** X13.  When the loaded compiler options set a [baseUrl] and their
    [paths] value has no string [appPath], [getModules] returns no bundle:
    it ends in the unsupported-baseUrl error or in a [TypeError]. *)
Theorem getModules_with_baseUrl (h : host) (config : value) (o : props)
  (t : list event) :
  existsSync h (appTsConfig (paths h))
  && existsSync h (appJsConfig (paths h)) = false ->
  loadConfig h (existsSync h (appTsConfig (paths h)))
    (existsSync h (appJsConfig (paths h)))
    [ExistsSync (appTsConfig (paths h)); ExistsSync (appJsConfig (paths h))]
  = (Ok config, t) ->
  get (js_or config (VObj [])) "compilerOptions" = Ok (VObj o) ->
  truthy (get_own (VObj o) "baseUrl") = true ->
  (forall s, get_own (get_own (VObj o) "paths") "appPath" <> VStr s) ->
  exists e,
    run (getModules h) = (Throw e, t) /\
    (e = TypeError \/ e = UnsupportedBaseUrlError).
Proof.
  intros Hboth Hload Hco Ht Hs.
  rewrite (getModules_after_load h config (VObj o) t Hboth Hload Hco).
  change (js_or (VObj o) (VObj [])) with (VObj o).
  rewrite (getWebpackAliases_no_appPath h o Ht Hs).
  destruct (getAdditionalModulePaths h (VObj o)) as [amp|e] eqn:E.
  - exists TypeError. auto.
  - exists e. split; [reflexivity|].
    destruct (baseUrl_cases h (appPath (paths h))
                (get_own (VObj o) "baseUrl"))
      as [Hf | [[resolved Hres] | [_ Hn]]].
    + congruence.
    + rewrite (getAdditionalModulePaths_tests h o resolved Hres) in E.
      destruct (same_dirb h (appNodeModules (paths h)) resolved);
        [discriminate|].
      destruct (same_dirb h (appSrc (paths h)) resolved); [discriminate|].
      destruct (same_dirb h (appPath (paths h)) resolved); [discriminate|].
      right. congruence.
    + rewrite (getAdditionalModulePaths_not_string h o Ht Hn) in E.
      left. congruence.
Qed.

(** Scenario B of the spec as a [jsconfig.json]. *)
Lemma getModules_with_baseUrl_witness :
  let o := [("baseUrl", VStr ".");
            ("paths", VObj [("@app/*", VArr [VStr "src/app/*"])])] in
  let h := Sample.js_project (VObj [("compilerOptions", VObj o)]) in
  exists e,
    run (getModules h) =
    (Throw e,
     [ExistsSync "/app/tsconfig.json"; ExistsSync "/app/jsconfig.json";
      Require "/app/jsconfig.json"]) /\
    (e = TypeError \/ e = UnsupportedBaseUrlError).
Proof.
  intros o h.
  apply (getModules_with_baseUrl h (VObj [("compilerOptions", VObj o)]) o);
    try reflexivity.
  intros s. discriminate.
Defined.

(** ** [baseUrl]: range, spelling and types *)

Section BaseUrlFacts.

Variable h : host.

Lemma getJestAliases_not_string (o : props) :
  truthy (get_own (VObj o) "baseUrl") = true ->
  (forall s, get_own (VObj o) "baseUrl" <> VStr s) ->
  getJestAliases h (VObj o) = Throw TypeError.
Proof.
  intros Ht Hs. unfold getJestAliases.
  cbn [default_arg get bind]. rewrite Ht. cbn [negb].
  rewrite (resolve_not_string h _ _ Hs). reflexivity.
Qed.

Lemma getJestAliases_falsy (o : props) :
  truthy (get_own (VObj o) "baseUrl") = false ->
  getJestAliases h (VObj o) = Ok (VObj []).
Proof.
  intros Hf. apply (results_without_baseUrl h (VObj o) eq_refl Hf).
Qed.

End BaseUrlFacts.

(** X14.  On an options object, all [getAdditionalModulePaths] ever
    returns is the empty string, [null] or the one-element array holding
    the [src] directory; and it is the empty string exactly when [baseUrl]
    is absent or falsy. *)
Theorem getAdditionalModulePaths_range (h : host) (o : props) (v : value) :
  getAdditionalModulePaths h (VObj o) = Ok v ->
  (v = VStr "" \/ v = VNull \/ v = VArr [VStr (appSrc (paths h))]) /\
  (v = VStr "" <-> truthy (get_own (VObj o) "baseUrl") = false).
Proof.
  intros Hv.
  destruct (baseUrl_cases h (appPath (paths h)) (get_own (VObj o) "baseUrl"))
    as [Hf | [[resolved Hres] | [Ht Hs]]].
  - rewrite (getAdditionalModulePaths_falsy h o Hf) in Hv.
    apply Ok_inj in Hv. subst v. split; [auto | split; auto].
  - pose proof (resolves_to_truthy h _ _ _ Hres) as Ht.
    rewrite (getAdditionalModulePaths_tests h o resolved Hres) in Hv.
    assert (Hcases : v = VNull \/ v = VArr [VStr (appSrc (paths h))]).
    { destruct (same_dirb h (appNodeModules (paths h)) resolved);
        [left; congruence|].
      destruct (same_dirb h (appSrc (paths h)) resolved);
        [right; congruence|].
      destruct (same_dirb h (appPath (paths h)) resolved);
        [left; congruence | discriminate]. }
    split; [tauto|].
    split; [|congruence].
    intros ->. destruct Hcases; discriminate.
  - rewrite (getAdditionalModulePaths_not_string h o Ht Hs) in Hv.
    discriminate.
Qed.

Lemma getAdditionalModulePaths_range_witness :
  let h := Sample.js_project Sample.child in
  (VArr [VStr "/app/src"] = VStr "" \/ VArr [VStr "/app/src"] = VNull \/
   VArr [VStr "/app/src"] = VArr [VStr "/app/src"]) /\
  (VArr [VStr "/app/src"] = VStr "" <->
   truthy (get_own (VObj [("baseUrl", VStr "/app/src/")]) "baseUrl") = false).
Proof.
  intros h.
  apply (getAdditionalModulePaths_range h [("baseUrl", VStr "/app/src/")]).
  reflexivity.
Defined.



(** X16.  On an options object, [getAdditionalModulePaths] ends in a
    [TypeError] exactly when [baseUrl] is truthy without being a string (a
    number, [true], an array, an object); [getJestAliases] throws in that
    case only, and nothing but the [TypeError]. *)
Theorem baseUrl_not_a_string (h : host) (o : props) :
  (getAdditionalModulePaths h (VObj o) = Throw TypeError <->
   truthy (get_own (VObj o) "baseUrl") = true /\
   forall s, get_own (VObj o) "baseUrl" <> VStr s) /\
  (forall e,
     getJestAliases h (VObj o) = Throw e <->
     e = TypeError /\
     truthy (get_own (VObj o) "baseUrl") = true /\
     forall s, get_own (VObj o) "baseUrl" <> VStr s).
Proof.
  destruct (baseUrl_cases h (appPath (paths h)) (get_own (VObj o) "baseUrl"))
    as [Hf | [[resolved Hres] | [Ht Hs]]].
  - rewrite (getAdditionalModulePaths_falsy h o Hf).
    rewrite (getJestAliases_falsy h o Hf).
    split; [|intros e]; (split; [discriminate|]); intros H;
      exfalso; destruct H as [H1 H2]; try destruct H2 as [H2 _]; congruence.
  - rewrite (getAdditionalModulePaths_tests h o resolved Hres).
    rewrite (getJestAliases_tests h o resolved Hres).
    destruct Hres as (b & Hb & _ & _).
    split; [|intros e]; split.
    + destruct (same_dirb h (appNodeModules (paths h)) resolved);
        [discriminate|].
      destruct (same_dirb h (appSrc (paths h)) resolved); [discriminate|].
      destruct (same_dirb h (appPath (paths h)) resolved); discriminate.
    + intros [_ Hs]. exfalso. exact (Hs b Hb).
    + destruct (same_dirb h (appPath (paths h)) resolved); discriminate.
    + intros (_ & _ & Hs). exfalso. exact (Hs b Hb).
  - rewrite (getAdditionalModulePaths_not_string h o Ht Hs).
    rewrite (getJestAliases_not_string h o Ht Hs).
    split; [|intros e]; split; auto.
    + intros [= <-]. auto.
    + intros (-> & _). reflexivity.
Qed.

Lemma baseUrl_not_a_string_witness :
  let h := Sample.js_project Sample.child in
  getAdditionalModulePaths h (VObj [("baseUrl", VArr [VStr "src"])])
  = Throw TypeError /\
  getJestAliases h (VObj [("baseUrl", VNum 1)]) = Throw TypeError.
Proof.
  intros h. split.
  - destruct (baseUrl_not_a_string h [("baseUrl", VArr [VStr "src"])])
      as ([_ Hm] & _).
    apply Hm. split; [reflexivity | intros s; discriminate].
  - destruct (baseUrl_not_a_string h [("baseUrl", VNum 1)]) as (_ & Hj).
    apply (Hj TypeError).
    split; [reflexivity|]. split; [reflexivity | intros s; discriminate].
Defined.

(** X17.  The jest mapping and the extra module paths exclude each other
    when [src] is not the project root: whenever [getJestAliases] returns
    the [src] mapping, [getAdditionalModulePaths] returns [null]; and
    whenever [getAdditionalModulePaths] returns the [src] directory,
    [getJestAliases] returns [undefined] (not the empty object). *)
Theorem jest_or_module_paths (h : host) (o : props) :
  ~ same_dir h (appSrc (paths h)) (appPath (paths h)) ->
  (getJestAliases h (VObj o)
   = Ok (VObj [("^src/(.*)$", VStr "<rootDir>/src/$1")]) ->
   getAdditionalModulePaths h (VObj o) = Ok VNull) /\
  (getAdditionalModulePaths h (VObj o) = Ok (VArr [VStr (appSrc (paths h))])
   -> getJestAliases h (VObj o) = Ok VUndefined).
Proof.
  intros Hroot.
  destruct (baseUrl_cases h (appPath (paths h)) (get_own (VObj o) "baseUrl"))
    as [Hf | [[resolved Hres] | [Ht Hs]]].
  - rewrite (getAdditionalModulePaths_falsy h o Hf).
    rewrite (getJestAliases_falsy h o Hf). split; discriminate.
  - rewrite (getAdditionalModulePaths_tests h o resolved Hres).
    rewrite (getJestAliases_tests h o resolved Hres).
    destruct (same_dirb h (appNodeModules (paths h)) resolved);
      [split; [reflexivity | discriminate]|].
    destruct (same_dirb h (appSrc (paths h)) resolved) eqn:Hs;
      destruct (same_dirb h (appPath (paths h)) resolved) eqn:Hr;
      try (split; (reflexivity || discriminate)).
    exfalso. apply Hroot. apply same_dirb_true in Hs, Hr.
    eapply same_dir_join; eassumption.
  - rewrite (getAdditionalModulePaths_not_string h o Ht Hs).
    rewrite (getJestAliases_not_string h o Ht Hs). split; discriminate.
Qed.

Lemma jest_or_module_paths_witness :
  let h := Sample.js_project Sample.child in
  getAdditionalModulePaths h (VObj [("baseUrl", VStr ".")]) = Ok VNull /\
  getJestAliases h (VObj [("baseUrl", VStr "src")]) = Ok VUndefined.
Proof.
  intros h.
  assert (H1 : ~ same_dir h (appSrc (paths h)) (appPath (paths h)))
    by (intros H; vm_compute in H; discriminate).
  split.
  - destruct (jest_or_module_paths h [("baseUrl", VStr ".")] H1) as (Hj & _).
    apply Hj. reflexivity.
  - destruct (jest_or_module_paths h [("baseUrl", VStr "src")] H1)
      as (_ & Hm).
    apply Hm. reflexivity.
Defined.

(** ** [configPathsRaw]: one side without paths *)

(** X18.  When only one of the two configs declares a [paths] object (the
    other has none, or a falsy one), [configPathsRaw] returns the entries
    of that one: the child's alone, or the parent's alone. *)
Theorem configPathsRaw_one_side (c side : props) :
  (declared_paths (VObj c) = VObj side ->
   truthy (declared_paths (js_or (get_own (VObj c) "extends") (VObj [])))
   = false ->
   exists merged,
     configPathsRaw (VObj c) = Ok (VObj merged) /\
     forall k, lookup k merged = lookup k side) /\
  (truthy (declared_paths (VObj c)) = false ->
   declared_paths (js_or (get_own (VObj c) "extends") (VObj []))
   = VObj side ->
   exists merged,
     configPathsRaw (VObj c) = Ok (VObj merged) /\
     forall k, lookup k merged = lookup k side).
Proof.
  split; intros H1 H2; rewrite configPathsRaw_spec; cbv zeta;
    unfold rejected_paths, or_empty.
  - rewrite H1, H2. cbn [truthy is_object_type typeof negb andb].
    eexists. split; [reflexivity|].
    intros k. rewrite !lookup_spread_obj. cbn [lookup].
    destruct (lookup k side); reflexivity.
  - rewrite H1, H2. cbn [truthy is_object_type typeof negb andb].
    eexists. split; [reflexivity|].
    intros k. rewrite !lookup_spread_obj. cbn [lookup].
    destruct (lookup k side); reflexivity.
Qed.

(** A child with paths whose parent has none, and the reverse. *)
Lemma configPathsRaw_one_side_witness :
  (exists merged,
     configPathsRaw
       (VObj [("compilerOptions",
               VObj [("paths", VObj [("a/*", VArr [VStr "./a/*"])])]);
              ("extends", VObj [("compilerOptions", VObj [])])])
     = Ok (VObj merged) /\
     forall k, lookup k merged = lookup k [("a/*", VArr [VStr "./a/*"])]) /\
  (exists merged,
     configPathsRaw
       (VObj [("compilerOptions", VObj [("paths", VNull)]);
              ("extends", Sample.base)])
     = Ok (VObj merged) /\
     forall k,
       lookup k merged = lookup k [("utils/*", VArr [VStr "./base/utils/*"])]).
Proof.
  split.
  - destruct (configPathsRaw_one_side
                [("compilerOptions",
                  VObj [("paths", VObj [("a/*", VArr [VStr "./a/*"])])]);
                 ("extends", VObj [("compilerOptions", VObj [])])]
                [("a/*", VArr [VStr "./a/*"])]) as (H & _).
    apply H; reflexivity.
  - destruct (configPathsRaw_one_side
                [("compilerOptions", VObj [("paths", VNull)]);
                 ("extends", Sample.base)]
                [("utils/*", VArr [VStr "./base/utils/*"])]) as (_ & H).
    apply H; reflexivity.
Defined.

(** ** [getModules]: a [tsconfig.json] that cannot be read *)

(** X19.  In a TypeScript project, when the result of
    [ts.readConfigFile] carries no [config] (the file could not be read or
    parsed), [getModules] ends in a [TypeError] at [config.extends]; the
    [jsconfig.json] that does not exist is not tried, and nothing is
    loaded after the compiler and the file. *)
Theorem getModules_unreadable_tsconfig (h : host) (ts : string -> value)
  (read : props) :
  existsSync h (appTsConfig (paths h)) = true ->
  existsSync h (appJsConfig (paths h)) = false ->
  typescript h = Ok ts ->
  ts (appTsConfig (paths h)) = VObj read ->
  lookup "config" read = None \/ lookup "config" read = Some VUndefined ->
  run (getModules h) =
  (Throw TypeError,
   [ExistsSync (appTsConfig (paths h)); ExistsSync (appJsConfig (paths h));
    RequireTypescript; ReadConfigFile (appTsConfig (paths h))]).
Proof.
  intros Hts Hjs Hload Hread Hcfg.
  unfold run, getModules, mbind, call. cbn [app].
  rewrite Hts, Hjs. cbn [andb]. unfold loadConfig, mbind, call, lift.
  rewrite Hload, Hread. cbn [get get_own].
  destruct Hcfg as [-> | ->]; reflexivity.
Qed.

Lemma getModules_unreadable_tsconfig_witness :
  let h :=
    {| cwd := "/home/dev";
       cwd_absolute := eq_refl;
       paths := Sample.P;
       existsSync := fun f => String.eqb f "/app/tsconfig.json";
       require := fun f => Throw (HostError f);
       typescript :=
         Ok (fun _ => VObj [("error", VObj [("code", VNum 1005)])]) |} in
  run (getModules h) =
  (Throw TypeError,
   [ExistsSync "/app/tsconfig.json"; ExistsSync "/app/jsconfig.json";
    RequireTypescript; ReadConfigFile "/app/tsconfig.json"]).
Proof.
  intros h.
  apply (getModules_unreadable_tsconfig h
           (fun _ => VObj [("error", VObj [("code", VNum 1005)])])
           [("error", VObj [("code", VNum 1005)])]);
    try reflexivity.
  left. reflexivity.
Defined.
